(** * VoxOver: the voiceover pipeline of [genai.py] and [utils.py]

    A shallow embedding of the two Python modules: the [GenAI] client
    wrapper (text, vision, frame sampling, speech) and the helpers that
    compute the narration budget and merge narration audio into a video.

    Python values are modelled as the code has them:
    - [str] is a sequence of Unicode code points ([pystr]);
    - [float] is IEEE 754 binary64, i.e. Rocq's primitive [float];
    - [int] is [Z];
    - exceptions, the file system, MoviePy and the OpenAI backend are
      effects: a state-and-exception monad over a [World] that records
      every external call, driven by an environment [Env] that says what
      each external call answers. *)

From Stdlib Require Import String Ascii DecimalString DecimalNat.
From Stdlib Require Import ZArith NArith List Bool Lia Floats.
From Equations Require Import Equations.
Import ListNotations.

Set Implicit Arguments.
Set Default Goal Selector "!".
Set Warnings "-inexact-float".

(** ** Python strings *)

Definition codepoint := N.
Definition pystr := list codepoint.

(** A string literal of the source, as a sequence of code points. *)
Definition py (s : string) : pystr :=
  map N_of_ascii (list_ascii_of_string s).

(** [s.startswith(p)] *)
Fixpoint startswith (p s : pystr) : bool :=
  match p, s with
  | [], _ => true
  | _ :: _, [] => false
  | a :: p', c :: s' => N.eqb a c && startswith p' s'
  end.

(** [sub in s], by scanning every start position. *)
Fixpoint py_in (sub s : pystr) : bool :=
  startswith sub s ||
  match s with
  | [] => false
  | _ :: s' => py_in sub s'
  end.

(** The substring relation that [py_in] decides. *)
Definition contains (sub s : pystr) : Prop :=
  exists pre post, s = pre ++ sub ++ post.

(** [s.replace(old, new)] for a non-empty [old = o :: old']: scan from the
    left; at an occurrence emit [new] and jump over it, otherwise copy one
    code point. *)
Equations? replace_ne (o : codepoint) (old' new s : pystr) : pystr
  by wf (length s) lt :=
  replace_ne o old' new [] := [];
  replace_ne o old' new (c :: s') :=
    if N.eqb o c && startswith old' s'
    then new ++ replace_ne o old' new (skipn (length old') s')
    else c :: replace_ne o old' new s'.
Proof.
  rewrite length_skipn. lia.
Qed.

(** [s.replace(old, new)]; with an empty [old] Python puts [new] before
    every code point and at the end. *)
Definition replace (old new s : pystr) : pystr :=
  match old with
  | [] => new ++ flat_map (fun c => c :: new) s
  | o :: old' => replace_ne o old' new s
  end.

Definition fence : pystr := py "```".
Definition fence_html : pystr := py "```html".

(** [response.replace("```html", "").replace("```", "")] *)
Definition strip_fences (response : pystr) : pystr :=
  replace fence [] (replace fence_html [] response).

(** [completion.choices[0].message.content or ""] *)
Definition content_or_empty (content : option pystr) : pystr :=
  match content with
  | Some s => s
  | None => []
  end.

(** The backtick. *)
Definition tick : codepoint := 96%N.

(** Number of backticks [s] starts with. *)
Fixpoint lead (s : pystr) : nat :=
  match s with
  | c :: s' => if N.eqb tick c then S (lead s') else 0
  | [] => 0
  end.

(** [str(n)] for a natural number, and [f"{i:03d}"]. *)
Definition str_of_nat (n : nat) : pystr :=
  py (DecimalString.NilZero.string_of_uint (Nat.to_uint n)).

Definition format_03d (i : nat) : pystr :=
  let d := str_of_nat i in
  repeat 48%N (3 - length d) ++ d.

(** [str.isspace] on one code point: the white space of the Unicode
    character database, which [str.strip()] removes. *)
Definition py_isspace (c : codepoint) : bool :=
  ((9 <=? c) && (c <=? 13) || (28 <=? c) && (c <=? 32) ||
   (c =? 133) || (c =? 160) || (c =? 5760) ||
   (8192 <=? c) && (c <=? 8202) ||
   (c =? 8232) || (c =? 8233) || (c =? 8239) || (c =? 8287) ||
   (c =? 12288))%N.

Fixpoint lstrip (s : pystr) : pystr :=
  match s with
  | c :: s' => if py_isspace c then lstrip s' else s
  | [] => []
  end.

Definition rstrip (s : pystr) : pystr := rev (lstrip (rev s)).

(** [s.strip()] *)
Definition strip (s : pystr) : pystr := rstrip (lstrip s).

(** Truth value of a [str]: non-empty. *)
Definition truthy_str (s : pystr) : bool :=
  match s with [] => false | _ :: _ => true end.

(** ** Exceptions *)

(** The exceptions the two modules raise themselves, the ones the
    interpreter raises for them, and [LibraryError] for whatever MoviePy,
    the OpenAI client or the operating system raise.  All are subclasses
    of [Exception], so [except Exception] catches each of them. *)
Inductive exn :=
| FileNotFoundError (msg : pystr)
| ValueError (msg : pystr)
| RuntimeError (msg : pystr)
| TypeError
| AttributeError (attr : pystr)
| UnboundLocalError (name : pystr)
| LibraryError (code : nat).

Inductive outcome (A : Type) :=
| Ok (a : A)
| Raise (e : exn).

Arguments Ok {A} a.
Arguments Raise {A} e.

(** ** MoviePy clips

    A clip object has an identity ([oid]); the constructor of a file clip
    opens a reader, named by the [oid] of the object that opened it.  The
    clips MoviePy derives from a clip (scaled, cut, with another audio)
    are new objects that read through the same reader. *)

Record AudioCaps := mkAudioCaps {
  has_with_volume_scaled : bool;   (* MoviePy v2 *)
  has_volumex : bool;              (* MoviePy v1 *)
  has_subclipped : bool;           (* MoviePy v2 *)
  has_subclip : bool               (* MoviePy v1 *)
}.

Record VideoCaps := mkVideoCaps {
  has_with_audio : bool;           (* MoviePy v2 *)
  has_set_audio : bool             (* MoviePy v1 *)
}.

Inductive fx :=
| FxVolume (factor : float)
| FxSubclip (t_start t_end : float).

(** An audio clip.  A clip made from a file (or derived from one) reads
    through [a_reader = Some h] and has no [a_tracks]; a
    [CompositeAudioClip] has no reader of its own and mixes its tracks. *)
#[warnings="-register-all"]
Inductive AudioClip :=
| mkAudio (oid : nat) (caps : AudioCaps) (duration : option float)
          (effects : list fx) (reader : option nat) (tracks : list AudioClip).

Definition a_oid (c : AudioClip) : nat :=
  match c with mkAudio oid _ _ _ _ _ => oid end.
Definition a_caps (c : AudioClip) : AudioCaps :=
  match c with mkAudio _ caps _ _ _ _ => caps end.
Definition a_duration (c : AudioClip) : option float :=
  match c with mkAudio _ _ duration _ _ _ => duration end.
(** What was applied to the source, in order. *)
Definition a_fx (c : AudioClip) : list fx :=
  match c with mkAudio _ _ _ effects _ _ => effects end.
Definition a_reader (c : AudioClip) : option nat :=
  match c with mkAudio _ _ _ _ reader _ => reader end.
Definition a_tracks (c : AudioClip) : list AudioClip :=
  match c with mkAudio _ _ _ _ _ tracks => tracks end.

Record VideoClip := mkVideo {
  v_oid : nat;
  v_caps : VideoCaps;
  v_reader : nat;
  v_duration : option float;
  v_audio : option AudioClip
}.

(** ** Requests to the backend *)

Inductive content_part :=
| TextPart (text : pystr)
| ImageUrlPart (url : pystr).

Inductive message_content :=
| Text (s : pystr)
| Parts (ps : list content_part).

Record message := mkMessage { role : pystr; content : message_content }.

Record ChatRequest := mkChat {
  cr_model : pystr;
  cr_temperature : option float;
  cr_response_format : option pystr;
  cr_max_tokens : option Z;
  cr_messages : list message
}.

Record SpeechRequest := mkSpeech {
  sp_model : pystr;
  sp_voice : pystr;
  sp_input : pystr;
  sp_speed : float
}.

(** ** The world: every external call, in order *)

Inductive event :=
| EvOpenVideo (path : pystr) (h : nat)
| EvOpenAudio (path : pystr) (h : nat)
| EvClose (oid : nat) (reader : option nat)
| EvSaveFrame (h : nat) (frame_path : pystr) (t : float)
| EvWriteVideofile (clip : VideoClip) (path codec audio_codec temp_audiofile : pystr)
| EvChatCompletion (req : ChatRequest)
| EvSpeech (req : SpeechRequest)
| EvStreamToFile (path : pystr)
| EvMakedirs (path : pystr)
| EvMkdtemp (dir : pystr)
| EvRmtree (dir : pystr).

Record World := mkWorld {
  w_log : list event;              (* oldest first *)
  w_next : nat                     (* next object identity *)
}.

(** Calls into MoviePy and the OS that may raise. *)
Inductive libcall :=
| CallClose (oid : nat)
| CallSaveFrame (oid : nat) (frame_path : pystr) (t : float)
| CallVolume (oid : nat) (factor : float)
| CallSubclip (oid : nat) (t_end : float)
| CallComposite (oids : list nat)
| CallSetAudio (oid : nat)
| CallWriteVideofile (oid : nat) (path : pystr)
| CallMakedirs (path : pystr)
| CallStreamToFile (path : pystr).

(** What a video or audio file holds, as MoviePy reports it. *)
Record VideoFile := mkVideoFile {
  vf_duration : option float;
  vf_audio : option (option float * AudioCaps);
  vf_caps : VideoCaps
}.

Record AudioFile := mkAudioFile {
  af_duration : option float;
  af_caps : AudioCaps
}.

(** The environment: what is outside the two modules. *)
Record Env := mkEnv {
  os_path_exists : pystr -> bool;
  os_path_abspath : pystr -> pystr;
  gettempdir : pystr;
  mkdtemp : nat -> pystr;
  video_file : pystr -> outcome VideoFile;
  audio_file : pystr -> outcome AudioFile;
  lib_raises : libcall -> option exn;
  encode_image : pystr -> outcome pystr;
  chat_completions_create : ChatRequest -> outcome (option pystr);
  audio_speech_create : SpeechRequest -> option exn;
  openai_api_key : option pystr
}.

(** ** The monad: state and exceptions

    A computation over a state [S] returns a value or raises, and in both
    cases leaves a state: what was done before an exception stays done. *)

Definition M (S A : Type) := S -> outcome A * S.

Definition ret {S A} (a : A) : M S A := fun s => (Ok a, s).

Definition raise {S A} (e : exn) : M S A := fun s => (Raise e, s).

Definition bind {S A B} (m : M S A) (k : A -> M S B) : M S B :=
  fun s =>
    match m s with
    | (Ok a, s') => k a s'
    | (Raise e, s') => (Raise e, s')
    end.

Declare Scope m_scope.
Delimit Scope m_scope with M.
Notation "x <- m ;; k" := (bind m (fun x => k))
  (at level 61, m at next level, right associativity) : m_scope.
Notation "m ;; k" := (bind m (fun _ => k))
  (at level 61, right associativity) : m_scope.
Local Open Scope m_scope.

(** [try: body finally: final]: [final] runs on every path; if it raises,
    its exception is the one that leaves the statement. *)
Definition try_finally {S A} (body : M S A) (final : M S unit) : M S A :=
  fun s =>
    match body s with
    | (r, s') =>
      match final s' with
      | (Ok _, s'') => (r, s'')
      | (Raise e, s'') => (Raise e, s'')
      end
    end.

(** [try: body except Exception: pass] *)
Definition try_except_pass {S} (body : M S unit) : M S unit :=
  fun s =>
    match body s with
    | (_, s') => (Ok tt, s')
    end.

(** A function's local variables [L] next to the world. *)
Definition lift {L A} (m : M World A) : M (L * World) A :=
  fun '(l, w) =>
    match m w with
    | (r, w') => (r, (l, w'))
    end.

Definition get_local {L} : M (L * World) L := fun '(l, w) => (Ok l, (l, w)).

Definition set_local {L} (f : L -> L) : M (L * World) unit :=
  fun '(l, w) => (Ok tt, (f l, w)).

(** Run a block that has local variables, from their initial values. *)
Definition with_locals {L A} (init : L) (m : M (L * World) A) : M World A :=
  fun w =>
    match m (init, w) with
    | (r, (_, w')) => (r, w')
    end.

Definition emit (ev : event) : M World unit :=
  fun w => (Ok tt, mkWorld (w_log w ++ [ev]) (w_next w)).

Definition fresh : M World nat :=
  fun w => (Ok (w_next w), mkWorld (w_log w) (S (w_next w))).

(** ** Python floats *)

(** [float(z)] for an [int]: the nearest binary64, ties to even.  (Beyond
    the binary64 range Python raises instead; no list of that many frames
    exists.) *)
Definition float_of_Z (z : Z) : float :=
  SF2Prim (binary_normalize prec emax z 0 false).

(** Truth value of a [float]: anything but zero. *)
Definition truthy_float (x : float) : bool := negb (PrimFloat.eqb x 0).

(** [max(x, *xs)]: the first of the largest items. *)
Fixpoint py_max (x : float) (xs : list float) : float :=
  match xs with
  | [] => x
  | y :: ys => py_max (if PrimFloat.ltb x y then y else x) ys
  end.

(** A number above zero (infinity included), and a number that is neither
    infinite nor NaN. *)
Definition positive_float (x : float) : Prop := PrimFloat.ltb 0 x = true.

Definition finite_float (x : float) : Prop :=
  PrimFloat.ltb (abs x) infinity = true.

(** The integer nearest to [m * 2^e], ties to even. *)
Definition round_half_even (m : positive) (e : Z) : Z :=
  if (0 <=? e)%Z then (Zpos m * 2 ^ e)%Z
  else
    let d := (2 ^ (- e))%Z in
    let q := (Zpos m / d)%Z in
    let r := (Zpos m mod d)%Z in
    match (2 * r ?= d)%Z with
    | Lt => q
    | Gt => (q + 1)%Z
    | Eq => if Z.even q then q else (q + 1)%Z
    end.

(** [f"{x:.0f}"] *)
Definition format_0f (x : float) : pystr :=
  match Prim2SF x with
  | S754_nan => py "nan"
  | S754_infinity s => if s then py "-inf" else py "inf"
  | S754_zero s => if s then py "-0" else py "0"
  | S754_finite s m e =>
      (if s then py "-" else []) ++
      str_of_nat (Z.to_nat (round_half_even m e))
  end.

(** ** Paths *)

Definition slash : codepoint := 47%N.

Definition endswith_slash (a : pystr) : bool :=
  match rev a with
  | c :: _ => N.eqb c slash
  | [] => false
  end.

(** [os.path.join(a, b)] (POSIX) *)
Definition os_path_join (a b : pystr) : pystr :=
  if startswith [slash] b then b
  else if negb (truthy_str a) || endswith_slash a then a ++ b
  else a ++ [slash] ++ b.

(** [head[:rfind('/') + 1]]: up to and including the last slash. *)
Fixpoint upto_last_slash (p : pystr) : pystr :=
  match p with
  | [] => []
  | c :: p' =>
      if N.eqb c slash || py_in [slash] p' then c :: upto_last_slash p' else []
  end.

Definition rstrip_slash (p : pystr) : pystr :=
  rev ((fix drop (r : pystr) : pystr :=
          match r with
          | c :: r' => if N.eqb c slash then drop r' else r
          | [] => []
          end) (rev p)).

(** [os.path.dirname(p)] (POSIX) *)
Definition os_path_dirname (p : pystr) : pystr :=
  let head := upto_last_slash p in
  if truthy_str head && negb (forallb (N.eqb slash) head)
  then rstrip_slash head
  else head.

(** The codecs of the merged file. *)
Definition libx264 : pystr := py "libx264".
Definition aac : pystr := py "aac".

(** ** The library calls, in a given environment *)

Section Program.

Variable env : Env.

Definition lib_call (c : libcall) : M World unit :=
  match lib_raises env c with
  | Some e => raise e
  | None => ret tt
  end.

(** [VideoFileClip(path)]: opens a reader on the file, and the file's
    audio track if it has one. *)
Definition VideoFileClip (path : pystr) : M World VideoClip :=
  match video_file env path with
  | Raise e => raise e
  | Ok vf =>
      h <- fresh ;;
      emit (EvOpenVideo path h) ;;
      audio <- match vf_audio vf with
               | None => ret None
               | Some (d, caps) =>
                   oid <- fresh ;;
                   ret (Some (mkAudio oid caps d [] (Some h) []))
               end ;;
      ret (mkVideo h (vf_caps vf) h (vf_duration vf) audio)
  end.

(** [AudioFileClip(path)] *)
Definition AudioFileClip (path : pystr) : M World AudioClip :=
  match audio_file env path with
  | Raise e => raise e
  | Ok af =>
      h <- fresh ;;
      emit (EvOpenAudio path h) ;;
      ret (mkAudio h (af_caps af) (af_duration af) [] (Some h) [])
  end.

(** [clip.close()] on a video clip: releases the reader it reads through.
    The event names the object closed and the reader released. *)
Definition close_video (clip : VideoClip) : M World unit :=
  emit (EvClose (v_oid clip) (Some (v_reader clip))) ;;
  lib_call (CallClose (v_oid clip)).

(** [clip.close()] on an audio clip; a clip without a reader of its own (a
    mix) releases none. *)
Definition close_audio (clip : AudioClip) : M World unit :=
  emit (EvClose (a_oid clip) (a_reader clip)) ;;
  lib_call (CallClose (a_oid clip)).

(** [video.save_frame(frame_path, t=t)] *)
Definition save_frame (video : VideoClip) (frame_path : pystr) (t : float)
  : M World unit :=
  emit (EvSaveFrame (v_reader video) frame_path t) ;;
  lib_call (CallSaveFrame (v_oid video) frame_path t).

(** [clip.with_volume_scaled(factor)] and [clip.volumex(factor)]: a new
    clip, the same source with one more effect. *)
Definition scaled (clip : AudioClip) (factor : float) : M World AudioClip :=
  lib_call (CallVolume (a_oid clip) factor) ;;
  oid <- fresh ;;
  ret (mkAudio oid (a_caps clip) (a_duration clip)
         (a_fx clip ++ [FxVolume factor]) (a_reader clip) (a_tracks clip)).

(** [clip.subclipped(0, t_end)] and [clip.subclip(0, t_end)]: a new clip
    that plays the source from 0 to [t_end]; a negative [t_end] counts from
    the end of the source.  Its duration is [t_end - 0]. *)
Definition subclipped (clip : AudioClip) (t_end : float) : M World AudioClip :=
  lib_call (CallSubclip (a_oid clip) t_end) ;;
  oid <- fresh ;;
  let t_end' :=
    match a_duration clip with
    | Some d => if PrimFloat.ltb t_end 0 then (d + t_end)%float else t_end
    | None => t_end
    end in
  ret (mkAudio oid (a_caps clip) (Some (t_end' - 0)%float)
         (a_fx clip ++ [FxSubclip 0 t_end']) (a_reader clip) (a_tracks clip)).

(** Duration of a mix: the latest end of its tracks, unknown as soon as
    one of them is. *)
Fixpoint known_durations (clips : list AudioClip) : option (list float) :=
  match clips with
  | [] => Some []
  | c :: cs =>
      match a_duration c, known_durations cs with
      | Some d, Some ds => Some (d :: ds)
      | _, _ => None
      end
  end.

Definition mix_duration (clips : list AudioClip) : option float :=
  match known_durations clips with
  | Some (d :: ds) => Some (py_max d ds)
  | _ => None
  end.

(** [CompositeAudioClip(clips)] *)
Definition CompositeAudioClip (clips : list AudioClip) : M World AudioClip :=
  lib_call (CallComposite (map a_oid clips)) ;;
  oid <- fresh ;;
  let caps := match clips with
              | c :: _ => a_caps c
              | [] => mkAudioCaps false false false false
              end in
  ret (mkAudio oid caps (mix_duration clips) [] None clips).

(** [clip.with_audio(audio)] and [clip.set_audio(audio)]: a new clip, the
    same pictures (same reader, same duration) with [audio] attached. *)
Definition with_audio (clip : VideoClip) (audio : option AudioClip)
  : M World VideoClip :=
  lib_call (CallSetAudio (v_oid clip)) ;;
  oid <- fresh ;;
  ret (mkVideo oid (v_caps clip) (v_reader clip) (v_duration clip) audio).

(** [clip.write_videofile(path, codec=.., audio_codec=.., temp_audiofile=..,
    remove_temp=True, logger=None)] *)
Definition write_videofile (clip : VideoClip)
    (path codec audio_codec temp_audiofile : pystr) : M World unit :=
  emit (EvWriteVideofile clip path codec audio_codec temp_audiofile) ;;
  lib_call (CallWriteVideofile (v_oid clip) path).

(** [with tempfile.TemporaryDirectory() as temp_dir: body] *)
Definition with_TemporaryDirectory {A} (body : pystr -> M World A) : M World A :=
  n <- fresh ;;
  let temp_dir := mkdtemp env n in
  emit (EvMkdtemp temp_dir) ;;
  try_finally (body temp_dir) (emit (EvRmtree temp_dir)).

(** ** genai.py: class GenAI *)

Record GenAI := mkGenAI { self_openai_api_key : pystr }.

Definition system_role : pystr := py "system".
Definition user_role : pystr := py "user".
Definition gpt_4o_mini : pystr := py "gpt-4o-mini".

(** [self.client.chat.completions.create(..)] and
    [completion.choices[0].message.content] *)
Definition chat_create (req : ChatRequest) : M World (option pystr) :=
  emit (EvChatCompletion req) ;;
  match chat_completions_create env req with
  | Raise e => raise e
  | Ok c => ret c
  end.

Definition generate_text (self : GenAI) (prompt instructions model
    output_type : pystr) (temperature : float) : M World pystr :=
  content <- chat_create
    (mkChat model (Some temperature) (Some output_type) None
       [mkMessage system_role (Text instructions);
        mkMessage user_role (Text prompt)]) ;;
  let response := content_or_empty content in
  ret (strip_fences response).

Definition generate_chat_response (self : GenAI) (chat_history : list message)
    (instructions model output_type : pystr) : M World pystr :=
  content <- chat_create
    (mkChat model None (Some output_type) None
       (mkMessage system_role (Text instructions) :: chat_history)) ;;
  ret (content_or_empty content).

(** [image_paths: Union[str, List[str]]] *)
Inductive str_or_list :=
| OneStr (p : pystr)
| StrList (ps : list pystr).

Fixpoint image_urls_of (paths : list pystr) : M World (list pystr) :=
  match paths with
  | [] => ret []
  | p :: ps =>
      b64 <- (fun w => (encode_image env p, w)) ;;
      urls <- image_urls_of ps ;;
      ret ((py "data:image/jpeg;base64," ++ b64) :: urls)
  end.

Definition generate_image_description (self : GenAI)
    (image_paths : str_or_list) (instructions model : pystr) (max_tokens : Z)
  : M World pystr :=
  let image_paths :=
    match image_paths with
    | OneStr p => [p]
    | StrList ps => ps
    end in
  image_urls <- image_urls_of image_paths ;;
  let messages :=
    [mkMessage user_role
       (Parts (TextPart instructions :: map ImageUrlPart image_urls))] in
  content <- chat_create (mkChat model None None (Some max_tokens) messages) ;;
  let response := content_or_empty content in
  ret (strip_fences response).

(** [range(n)] *)
Definition range (n : Z) : list Z := map Z.of_nat (seq 0 (Z.to_nat n)).

(** Lines 147-150: the timestamps of the frames to sample. *)
Definition sample_timestamps (duration : float) (n_frames : Z) : list float :=
  if (n_frames <=? 1)%Z then [0%float]
  else map (fun i => (float_of_Z i * duration / float_of_Z (n_frames - 1))%float)
           (range n_frames).

(** [os.path.join(temp_dir, f"frame_{i:03d}.jpg")] *)
Definition frame_path (temp_dir : pystr) (i : nat) : pystr :=
  os_path_join temp_dir (py "frame_" ++ format_03d i ++ py ".jpg").

(** Lines 152-155: the loop over [enumerate(timestamps)], from index [i]. *)
Fixpoint save_frames (video : VideoClip) (temp_dir : pystr) (i : nat)
    (timestamps : list float) : M World (list pystr) :=
  match timestamps with
  | [] => ret []
  | t :: ts =>
      save_frame video (frame_path temp_dir i) t ;;
      image_paths <- save_frames video temp_dir (S i) ts ;;
      ret (frame_path temp_dir i :: image_paths)
  end.

(** Lines 142-155: the body of the [try]. *)
Definition sample_frames (video : VideoClip) (temp_dir : pystr) (n_frames : Z)
  : M World (list pystr) :=
  let duration :=
    match v_duration video with
    | Some d => if truthy_float d then d else 0%float
    | None => 0%float
    end in
  if PrimFloat.leb duration 0
  then raise (ValueError (py "Video duration is 0; cannot sample frames."))
  else save_frames video temp_dir 0 (sample_timestamps duration n_frames).

Definition generate_video_description (self : GenAI) (video_path
    instructions model : pystr) (n_frames : Z) : M World pystr :=
  if negb (os_path_exists env video_path)
  then raise (FileNotFoundError (py "Video not found: " ++ video_path))
  else
    with_TemporaryDirectory (fun temp_dir =>
      video <- VideoFileClip video_path ;;
      image_paths <-
        try_finally (sample_frames video temp_dir n_frames)
                    (close_video video) ;;
      generate_image_description self (StrList image_paths) instructions
        model 1000).

Definition generate_audio (self : GenAI) (text file_path model voice : pystr)
    (speed : float) : M World bool :=
  if negb (truthy_str text) || negb (truthy_str (strip text))
  then raise (ValueError (py "Cannot generate audio from empty text."))
  else
    let req := mkSpeech model voice text speed in
    emit (EvSpeech req) ;;
    match audio_speech_create env req with
    | Some e => raise e
    | None =>
        emit (EvStreamToFile file_path) ;;
        lib_call (CallStreamToFile file_path) ;;
        ret true
    end.

(** ** utils.py *)

Definition missing_key_message : pystr :=
  py "Missing OPENAI_API_KEY. On Streamlit Cloud: add it in App Settings "
  ++ [226; 8224; 8217]%N ++ py " Secrets as OPENAI_API_KEY = "
  ++ [34%N] ++ py "your_key" ++ [34%N]
  ++ py ". Locally: set env var or use a .env file.".

(** [_jarvis()]: the client for the configured key.  (The source caches
    the client; the key of an environment does not change, so the cached
    client and a new one are the same.) *)
Definition _jarvis : M World GenAI :=
  match openai_api_key env with
  | Some key =>
      if truthy_str key then ret (mkGenAI key)
      else raise (RuntimeError missing_key_message)
  | None => raise (RuntimeError missing_key_message)
  end.

Definition get_video_duration (video_path : pystr) : M World float :=
  clip <- VideoFileClip video_path ;;
  try_finally
    (match v_duration clip with
     | Some d => ret d
     | None => raise TypeError
     end)
    (close_video clip).

(** Lines 70-74: the instructions sent with the frames. *)
Definition instructions_modified (instructions : pystr) (nwords_max : float)
  : pystr :=
  instructions
  ++ ([10%N] ++ py "Your voiceover text should be less than "
      ++ format_0f nwords_max ++ py " words long. ")
  ++ py "Do not use any hashtags or emojis in the voiceover text as this will be read aloud.".

Definition generate_voiceover_text (video_path instructions : pystr)
  : M World pystr :=
  let wps := (200 / 60)%float in
  duration_secs <- get_video_duration video_path ;;
  let nwords_max := (wps * duration_secs)%float in
  jarvis <- _jarvis ;;
  voiceover_text <- generate_video_description jarvis video_path
    (instructions_modified instructions nwords_max) gpt_4o_mini 10 ;;
  ret voiceover_text.

Definition generate_voiceover_audio (voiceover_text file_path voice_name : pystr)
    (speed : float) : M World bool :=
  jarvis <- _jarvis ;;
  generate_audio jarvis voiceover_text file_path (py "gpt-4o-mini-tts")
    voice_name speed.

Definition is_None {A} (x : option A) : bool :=
  match x with None => true | Some _ => false end.

Definition _scale_volume (audio_clip : option AudioClip) (volume : float)
  : M World (option AudioClip) :=
  if PrimFloat.eqb volume 1 || is_None audio_clip then ret audio_clip
  else
    match audio_clip with
    | None => ret audio_clip
    | Some clip =>
        if has_with_volume_scaled (a_caps clip)
        then c <- scaled clip volume ;; ret (Some c)
        else if has_volumex (a_caps clip)
        then c <- scaled clip volume ;; ret (Some c)
        else ret audio_clip
    end.

Definition _subclip (audio_clip : option AudioClip) (t_end : float)
  : M World (option AudioClip) :=
  match audio_clip with
  | None => ret None
  | Some clip =>
      if has_subclipped (a_caps clip)
      then c <- subclipped clip t_end ;; ret (Some c)
      else if has_subclip (a_caps clip)
      then c <- subclipped clip t_end ;; ret (Some c)
      else raise (AttributeError (py "subclip"))
  end.

Definition _set_audio (video_clip : VideoClip) (audio_clip : option AudioClip)
  : M World VideoClip :=
  if has_with_audio (v_caps video_clip)
  then with_audio video_clip audio_clip
  else if has_set_audio (v_caps video_clip)
  then with_audio video_clip audio_clip
  else raise (AttributeError (py "set_audio")).

(** The local variables of [merge_video_with_audio] that are assigned
    inside its [try] and read in its [finally].  [final_clip] is [None]
    while the name is not bound. *)
Record merge_locals := mkLocals {
  added_audio_clip : option AudioClip;
  final_clip : option VideoClip
}.

Definition F := M (merge_locals * World).

(** [x.duration], of a variable that may hold [None]. *)
Definition duration_of (x : option AudioClip) : F (option float) :=
  match x with
  | Some c => ret (a_duration c)
  | None => raise (AttributeError (py "duration"))
  end.

(** [a > b] on two durations: a [TypeError] when one is [None]. *)
Definition gt_duration (a b : option float) : F bool :=
  match a, b with
  | Some x, Some y => ret (PrimFloat.ltb y x)
  | _, _ => raise TypeError
  end.

(** Lines 163-180: mix the tracks, attach the result and write the file. *)
Definition merge_compose (video_clip : VideoClip)
    (original_audio : option AudioClip) (merged_path tmp_audiofile : pystr)
  : F pystr :=
  (* Composite audio *)
  l <- get_local ;;
  final_audio <-
    match original_audio with
    | Some original =>
        match added_audio_clip l with
        | Some added =>
            c <- lift (CompositeAudioClip [original; added]) ;; ret (Some c)
        | None => raise (AttributeError (py "end"))
        end
    | None => ret (added_audio_clip l)
    end ;;
  fc <- lift (_set_audio video_clip final_audio) ;;
  set_local (fun l => mkLocals (added_audio_clip l) (Some fc)) ;;
  lift (write_videofile fc merged_path libx264 aac tmp_audiofile) ;;
  ret merged_path.

(** Lines 154-180: the body of the [try]. *)
Definition merge_try (video_clip : VideoClip) (merged_path tmp_audiofile
    : pystr) (video_volume audio_volume : float) : F pystr :=
  (* Adjust volumes *)
  let original_audio := v_audio video_clip in
  original_audio <- lift (_scale_volume original_audio video_volume) ;;
  l <- get_local ;;
  a <- lift (_scale_volume (added_audio_clip l) audio_volume) ;;
  set_local (fun l => mkLocals a (final_clip l)) ;;
  (* Trim added audio if longer than video *)
  l <- get_local ;;
  d <- duration_of (added_audio_clip l) ;;
  longer <- gt_duration d (v_duration video_clip) ;;
  (if longer : bool
   then
     match v_duration video_clip with
     | Some t_end =>
         a <- lift (_subclip (added_audio_clip l) t_end) ;;
         set_local (fun l => mkLocals a (final_clip l))
     | None => raise TypeError
     end
   else ret tt) ;;
  merge_compose video_clip original_audio merged_path tmp_audiofile.

(** Lines 183-195: the [finally]. *)
Definition merge_finally (video_clip : VideoClip) : F unit :=
  try_except_pass
    (l <- get_local ;;
     match added_audio_clip l with
     | Some c => lift (close_audio c)
     | None => raise (AttributeError (py "close"))
     end) ;;
  try_except_pass (lift (close_video video_clip)) ;;
  try_except_pass
    (l <- get_local ;;
     match final_clip l with
     | Some c => lift (close_video c)
     | None => raise (UnboundLocalError (py "final_clip"))
     end).

(** Lines 142-145: ensure the output directory exists. *)
Definition ensure_output_dir (merged_path : pystr) : M World unit :=
  let output_dir := os_path_dirname (os_path_abspath env merged_path) in
  if truthy_str output_dir && negb (os_path_exists env output_dir)
  then emit (EvMakedirs output_dir) ;; lib_call (CallMakedirs output_dir)
  else ret tt.

(** Line 148: a temp audio file in the system temp directory. *)
Definition tmp_audiofile : pystr :=
  os_path_join (gettempdir env) (py "voxover_temp_audio.m4a").

Definition merge_video_with_audio (video_path audio_path merged_path : pystr)
    (video_volume audio_volume : float) : M World pystr :=
  ensure_output_dir merged_path ;;
  video_clip <- VideoFileClip video_path ;;
  added <- AudioFileClip audio_path ;;
  with_locals (mkLocals (Some added) None)
    (try_finally
       (merge_try video_clip merged_path tmp_audiofile video_volume audio_volume)
       (merge_finally video_clip)).

End Program.

Arguments strip_fences : simpl never.
Arguments format_0f : simpl never.
Arguments float_of_Z : simpl never.
Arguments py : simpl never.

(** * Specification vocabulary

    Predicates, expected values and sample environments the properties
    below are stated with. *)

(** Events a run adds to the log. *)
Definition is_save_frame (ev : event) : bool :=
  match ev with EvSaveFrame _ _ _ => true | _ => false end.

Definition is_backend_call (ev : event) : bool :=
  match ev with
  | EvChatCompletion _ | EvSpeech _ | EvStreamToFile _ => true
  | _ => false
  end.

(** ** Code fences (generate_text, generate_image_description) *)

Definition fence_free (s : pystr) : Prop :=
  ~ contains fence s /\ ~ contains fence_html s.

(** ** Empty narration (generate_audio) *)

Definition whitespace_only (s : pystr) : Prop := forallb py_isspace s = true.

(** ** A demonstration environment

    A 60-second video with an audio track, a 75.5-second narration,
    MoviePy v2 clips, a backend that answers a fenced paragraph, and no
    failing call. *)

Module Demo.

Definition caps_v2 : AudioCaps := mkAudioCaps true false true false.
Definition vcaps_v2 : VideoCaps := mkVideoCaps true false.

Definition video_path : pystr := py "/in/clip.mp4".
Definition audio_path : pystr := py "/in/voice.mp3".
Definition merged_path : pystr := py "/out/merged.mp4".

Definition video60 : VideoFile :=
  mkVideoFile (Some 60%float) (Some (Some 60%float, caps_v2)) vcaps_v2.

Definition env : Env :=
  {| os_path_exists := fun _ => true;
     os_path_abspath := fun p => p;
     gettempdir := py "/tmp";
     mkdtemp := fun _ => py "/tmp/tmpabc";
     video_file := fun _ => Ok video60;
     audio_file := fun _ => Ok (mkAudioFile (Some 75.5%float) caps_v2);
     lib_raises := fun _ => None;
     encode_image := fun _ => Ok (py "QUJD");
     chat_completions_create :=
       fun _ => Ok (Some (py "```html<p>A calm lake at dawn.</p>```"));
     audio_speech_create := fun _ => None;
     openai_api_key := Some (py "sk-demo") |}.

(** The same, with another video file, or another narration file. *)
Definition with_video (vf : outcome VideoFile) (e : Env) : Env :=
  mkEnv (os_path_exists e) (os_path_abspath e) (gettempdir e) (mkdtemp e)
    (fun _ => vf) (audio_file e) (lib_raises e) (encode_image e)
    (chat_completions_create e) (audio_speech_create e) (openai_api_key e).

Definition with_audio_file (af : outcome AudioFile) (e : Env) : Env :=
  mkEnv (os_path_exists e) (os_path_abspath e) (gettempdir e) (mkdtemp e)
    (video_file e) (fun _ => af) (lib_raises e) (encode_image e)
    (chat_completions_create e) (audio_speech_create e) (openai_api_key e).

Definition jarvis : GenAI := mkGenAI (py "sk-demo").

Definition w0 : World := mkWorld [] 0.

Definition instructions : pystr := py "Describe the scene.".

End Demo.

(** ** Frame sampling (generate_video_description) *)

(** The [save_frame] calls of the loop, for the timestamps [ts] from
    index [i]. *)
Fixpoint frame_events (h : nat) (temp_dir : pystr) (i : nat) (ts : list float)
  : list event :=
  match ts with
  | [] => []
  | t :: ts' => EvSaveFrame h (frame_path temp_dir i) t :: frame_events h temp_dir (S i) ts'
  end.

(** ** Rejecting a video without duration (generate_video_description) *)

(** [video.duration] is [None], zero or negative. *)
Definition non_positive_duration (d : option float) : Prop :=
  match d with
  | None => True
  | Some x => PrimFloat.leb x 0 = true
  end.

Definition duration_error : exn :=
  ValueError (py "Video duration is 0; cannot sample frames.").

(** A video that reports a zero duration. *)
Definition env_zero_duration : Env :=
  Demo.with_video (Ok (mkVideoFile (Some 0%float) None Demo.vcaps_v2)) Demo.env.

(** A clip of some other library: no volume method at all. *)
Definition plain_clip : AudioClip :=
  mkAudio 7 (mkAudioCaps false false false false) (Some 3%float) [] (Some 7) [].

(** ** Merging (merge_video_with_audio) *)

(** [c'] was derived from [c]: another object on the same source. *)
Definition derived (c c' : AudioClip) : Prop :=
  a_caps c' = a_caps c /\ a_reader c' = a_reader c /\ a_tracks c' = a_tracks c.

(** The effect [_scale_volume] adds to a clip. *)
Definition volume_fx (caps : AudioCaps) (volume : float) : list fx :=
  if PrimFloat.eqb volume 1 then []
  else if has_with_volume_scaled caps || has_volumex caps then [FxVolume volume]
  else [].

Definition scaled_like (a : option AudioClip) (volume : float)
    (a' : option AudioClip) : Prop :=
  match a, a' with
  | None, None => True
  | Some c, Some c' =>
      derived c c' /\ a_duration c' = a_duration c /\
      a_fx c' = a_fx c ++ volume_fx (a_caps c) volume
  | _, _ => False
  end.

(** Where a cut at [t_end] ends, in a clip of duration [d]. *)
Definition trim_end (d : option float) (t_end : float) : float :=
  match d with
  | Some d => if PrimFloat.ltb t_end 0 then (d + t_end)%float else t_end
  | None => t_end
  end.

Definition trimmed_like (c : AudioClip) (t_end : float) (c' : AudioClip) : Prop :=
  derived c c' /\
  a_duration c' = Some (trim_end (a_duration c) t_end - 0)%float /\
  a_fx c' = a_fx c ++ [FxSubclip 0 (trim_end (a_duration c) t_end)].

(** The narration as it is attached: scaled, then cut at the video's
    duration when it is longer. *)
Definition narration_like (c0 : AudioClip) (audio_volume : float)
    (video_duration : option float) (narr : AudioClip) : Prop :=
  exists c1,
    scaled_like (Some c0) audio_volume (Some c1) /\
    match a_duration c1, video_duration with
    | Some d1, Some dv =>
        if PrimFloat.ltb dv d1 then trimmed_like c1 dv narr else narr = c1
    | _, _ => False
    end.

(** The audio of the merged clip: the narration alone when the video has
    no audio, else the mix of the scaled original and the narration. *)
Definition final_audio_like (vc : VideoClip) (video_volume : float)
    (narr : AudioClip) (fa : option AudioClip) : Prop :=
  match v_audio vc with
  | None => fa = Some narr
  | Some o =>
      exists o' mix,
        scaled_like (Some o) video_volume (Some o') /\
        fa = Some mix /\
        a_reader mix = None /\ a_tracks mix = [o'; narr] /\ a_fx mix = [] /\
        a_duration mix = mix_duration [o'; narr]
  end.

Definition merged_clip_like (vc : VideoClip) (c0 : AudioClip)
    (video_volume audio_volume : float) (narr : AudioClip) (fc : VideoClip)
  : Prop :=
  v_reader fc = v_reader vc /\ v_duration fc = v_duration vc /\
  narration_like c0 audio_volume (v_duration vc) narr /\
  final_audio_like vc video_volume narr (v_audio fc).

(** *** Releasing the clips *)

Definition is_close (h : nat) (ev : event) : bool :=
  match ev with
  | EvClose _ (Some h') => Nat.eqb h h'
  | _ => false
  end.

Definition is_open (ev : event) : bool :=
  match ev with
  | EvOpenVideo _ _ | EvOpenAudio _ _ => true
  | _ => false
  end.

(** Every reader opened in [evs] is closed later in [evs]. *)
Fixpoint all_released (evs : list event) : bool :=
  match evs with
  | [] => true
  | ev :: rest =>
      match ev with
      | EvOpenVideo _ h | EvOpenAudio _ h => existsb (is_close h) rest
      | _ => true
      end && all_released rest
  end.

(** The same environment, where [close()] on the object [oid] raises
    [f oid]. *)
Definition with_close_errors (f : nat -> option exn) (e : Env) : Env :=
  mkEnv (os_path_exists e) (os_path_abspath e) (gettempdir e) (mkdtemp e)
    (video_file e) (audio_file e)
    (fun c => match c with
              | CallClose oid => f oid
              | _ => lib_raises e c
              end)
    (encode_image e) (chat_completions_create e) (audio_speech_create e)
    (openai_api_key e).

(** The [close()] calls of the [finally] of [merge_video_with_audio]. *)
Definition merge_closes (vc : VideoClip) (l : merge_locals) : list event :=
  match added_audio_clip l with
  | Some c => [EvClose (a_oid c) (a_reader c)]
  | None => []
  end ++
  [EvClose (v_oid vc) (Some (v_reader vc))] ++
  match final_clip l with
  | Some fc => [EvClose (v_oid fc) (Some (v_reader fc))]
  | None => []
  end.

(** What the [finally] of [merge_video_with_audio] calls [close()] on, in
    order: the narration clip, the video clip, and the final clip when
    it was made.  Each event names the object closed and the reader it
    releases. *)
Definition release_calls (narration : AudioClip) (video : VideoClip)
    (final : option VideoClip) : list event :=
  [EvClose (a_oid narration) (a_reader narration);
   EvClose (v_oid video) (Some (v_reader video))] ++
  match final with
  | Some fc => [EvClose (v_oid fc) (Some (v_reader fc))]
  | None => []
  end.

(** The [write_videofile] call on the final clip: the first thing done
    with it once it is made. *)
Definition write_call (final : option VideoClip) (merged_path tmp : pystr)
  : list event :=
  match final with
  | Some fc => [EvWriteVideofile fc merged_path libx264 aac tmp]
  | None => []
  end.

(** A [close()] failure on the video of [env_zero_duration]. *)
Definition env_close_fails : Env :=
  with_close_errors (fun oid => if Nat.eqb oid 1 then Some (LibraryError 7) else None)
    env_zero_duration.

(** The narration file cannot be opened. *)
Definition env_narration_unreadable : Env :=
  Demo.with_audio_file (Raise (LibraryError 2)) Demo.env.

(** The clips [merge_video_with_audio] opens, from what the files hold:
    the video on the reader [hV] with its own track if any, the narration
    on the reader [hA]. *)
Definition opened_video (vf : VideoFile) (hV : nat) : VideoClip :=
  mkVideo hV (vf_caps vf) hV (vf_duration vf)
    match vf_audio vf with
    | Some (da, caps) => Some (mkAudio (S hV) caps da [] (Some hV) [])
    | None => None
    end.

Definition opened_narration (af : AudioFile) (hA : nat) : AudioClip :=
  mkAudio hA (af_caps af) (af_duration af) [] (Some hA) [].

(** What is applied to the narration file: the volume, then the cut at the
    video's duration when the narration is longer. *)
Definition narration_fx (af : AudioFile) (audio_volume : float)
    (video_duration : option float) : list fx :=
  volume_fx (af_caps af) audio_volume ++
  match af_duration af, video_duration with
  | Some dn, Some dv =>
      if PrimFloat.ltb dv dn then [FxSubclip 0 (trim_end (Some dn) dv)] else []
  | _, _ => []
  end.

Definition narration_duration (af : AudioFile) (video_duration : option float)
  : option float :=
  match af_duration af, video_duration with
  | Some dn, Some dv =>
      if PrimFloat.ltb dv dn then Some (trim_end (Some dn) dv - 0)%float
      else Some dn
  | _, _ => None
  end.

(** The video's own audio track, when it has one, is not longer than the
    video (MoviePy reads both durations from the same file). *)
Definition original_not_longer (vf : VideoFile) (dv : float) : Prop :=
  match vf_audio vf with
  | None => True
  | Some (da, _) =>
      da = Some dv \/ exists d, da = Some d /\ PrimFloat.ltb d dv = true
  end.

(** ** The narration budget (generate_voiceover_text) *)

(** The request [generate_image_description] sends. *)
Definition vision_request (model instructions : pystr) (max_tokens : Z)
    (image_urls : list pystr) : ChatRequest :=
  mkChat model None None (Some max_tokens)
    [mkMessage user_role
       (Parts (TextPart instructions :: map ImageUrlPart image_urls))].

Definition budget_sentence (nwords_max : float) : pystr :=
  [10%N] ++ py "Your voiceover text should be less than "
  ++ format_0f nwords_max ++ py " words long. ".

Definition no_hashtags_sentence : pystr :=
  py "Do not use any hashtags or emojis in the voiceover text as this will be read aloud.".

Arguments frame_path : simpl never.
Arguments sample_timestamps : simpl never.

(** * More of the two modules *)

(** ** genai.py: the request of [generate_text] *)

(** The request [generate_text] sends. *)
Definition text_request (model instructions prompt output_type : pystr)
    (temperature : float) : ChatRequest :=
  mkChat model (Some temperature) (Some output_type) None
    [mkMessage system_role (Text instructions);
     mkMessage user_role (Text prompt)].

(** [f"data:image/jpeg;base64,{b64}"] *)
Definition data_uri (b64 : pystr) : pystr := py "data:image/jpeg;base64," ++ b64.

(** The paths [generate_image_description] works on: a single string is
    one path. *)
Definition paths_of (image_paths : str_or_list) : list pystr :=
  match image_paths with
  | OneStr p => [p]
  | StrList ps => ps
  end.

(** ** genai.py: document helpers *)

(** What the document libraries read from a file: for a PDF the result of
    [page.extract_text()] for each page of [reader.pages], for a DOCX the
    [text] of each of [doc.paragraphs]; or what opening the file raises. *)
Record Documents := mkDocuments {
  pdf_pages : pystr -> outcome (list (option pystr));
  docx_paragraphs : pystr -> outcome (list pystr)
}.

(** [sep.join(parts)] *)
Fixpoint join (sep : pystr) (parts : list pystr) : pystr :=
  match parts with
  | [] => []
  | p :: ps =>
      match ps with
      | [] => p
      | _ :: _ => p ++ sep ++ join sep ps
      end
  end.

(** [read_pdf]: ["".join((page.extract_text() or "") for page in reader.pages)] *)
Definition read_pdf (docs : Documents) (file_path : pystr) : outcome pystr :=
  match pdf_pages docs file_path with
  | Raise e => Raise e
  | Ok pages => Ok (join [] (map content_or_empty pages))
  end.

(** [read_docx]: ["\n".join(p.text for p in doc.paragraphs)] *)
Definition read_docx (docs : Documents) (file_path : pystr) : outcome pystr :=
  match docx_paragraphs docs file_path with
  | Raise e => Raise e
  | Ok paragraphs => Ok (join [10%N] paragraphs)
  end.

(** ** utils.py: the cached client

    [@lru_cache(maxsize=1)] on [_jarvis]: the process keeps the client of
    the first call that returned; a call that raised leaves nothing behind.
    The state is the cache next to the world; the environment of a call is
    the one at the time of the call (the key may have changed). *)
Definition _jarvis_cached (env : Env) : M (option GenAI * World) GenAI :=
  fun '(cache, w) =>
    match cache with
    | Some client => (Ok client, (cache, w))
    | None =>
        match _jarvis env w with
        | (Ok client, w') => (Ok client, (Some client, w'))
        | (Raise e, w') => (Raise e, (None, w'))
        end
    end.

(** Successive calls of [_jarvis()], one per environment of the list. *)
Fixpoint jarvis_calls (envs : list Env) (s : option GenAI * World)
  : list (outcome GenAI) * (option GenAI * World) :=
  match envs with
  | [] => ([], s)
  | env :: rest =>
      match _jarvis_cached env s with
      | (r, s') =>
          match jarvis_calls rest s' with
          | (rs, s'') => (r :: rs, s'')
          end
      end
  end.

(** ** Reading a frame index back *)

(** [int(s)] for a string of decimal digits. *)
Definition digit_value (c : codepoint) : nat := N.to_nat (c - 48).

Definition int_of_digits (s : pystr) : nat :=
  fold_left (fun acc c => 10 * acc + digit_value c) s 0.

(** ** Vocabulary of the properties of this part *)

Definition is_mkdtemp_or_rmtree (ev : event) : bool :=
  match ev with
  | EvMkdtemp _ | EvRmtree _ => true
  | _ => false
  end.

Definition is_write (ev : event) : bool :=
  match ev with
  | EvWriteVideofile _ _ _ _ _ => true
  | _ => false
  end.

Definition is_makedirs (ev : event) : bool :=
  match ev with
  | EvMakedirs _ => true
  | _ => false
  end.

(** Some code point of [s] is not white space. *)
Definition has_text (s : pystr) : Prop :=
  existsb (fun c => negb (py_isspace c)) s = true.

(** The key of an environment is missing or empty. *)
Definition no_api_key (env : Env) : Prop :=
  match openai_api_key env with
  | Some key => truthy_str key = false
  | None => True
  end.

(** An environment without API key. *)
Definition env_no_key : Env :=
  mkEnv (os_path_exists Demo.env) (os_path_abspath Demo.env)
    (gettempdir Demo.env) (mkdtemp Demo.env) (video_file Demo.env)
    (audio_file Demo.env) (lib_raises Demo.env) (encode_image Demo.env)
    (chat_completions_create Demo.env) (audio_speech_create Demo.env) None.

(** The [os.makedirs] call of [merge_video_with_audio], when it is made:
    the directory of the output has a name and does not exist. *)
Definition output_dir_events (env : Env) (merged_path : pystr) : list event :=
  let output_dir := os_path_dirname (os_path_abspath env merged_path) in
  if truthy_str output_dir && negb (os_path_exists env output_dir)
  then [EvMakedirs output_dir]
  else [].

(** [s.split(sep)] for a separator of one code point. *)
Fixpoint split_on (sep : codepoint) (s : pystr) : list pystr :=
  match s with
  | [] => [[]]
  | c :: rest =>
      if N.eqb c sep then [] :: split_on sep rest
      else
        match split_on sep rest with
        | first :: others => (c :: first) :: others
        | [] => [[c]]
        end
  end.

(** Example documents: a PDF whose second page has no text layer, a DOCX
    of two paragraphs. *)
Definition demo_docs : Documents :=
  mkDocuments
    (fun _ => Ok [Some (py "Title"); None; Some (py " body")])
    (fun _ => Ok [py "Dear reader,"; py "thank you."]).

Definition demo_docs_text_pages : Documents :=
  mkDocuments
    (fun _ => Ok [Some (py "Title"); Some (py " body")])
    (fun _ => Ok []).

(** ** Example environments of this part *)

(** The backend answers in plain text. *)
Definition env_plain_answer : Env :=
  mkEnv (os_path_exists Demo.env) (os_path_abspath Demo.env)
    (gettempdir Demo.env) (mkdtemp Demo.env) (video_file Demo.env)
    (audio_file Demo.env) (lib_raises Demo.env) (encode_image Demo.env)
    (fun _ => Ok (Some (py "A calm lake at dawn.")))
    (audio_speech_create Demo.env) (openai_api_key Demo.env).

(** The image of the empty path cannot be opened. *)
Definition env_unreadable_image : Env :=
  mkEnv (os_path_exists Demo.env) (os_path_abspath Demo.env)
    (gettempdir Demo.env) (mkdtemp Demo.env) (video_file Demo.env)
    (audio_file Demo.env) (lib_raises Demo.env)
    (fun p => match p with
              | [] => Raise (FileNotFoundError [])
              | _ :: _ => Ok (py "QUJD")
              end)
    (chat_completions_create Demo.env) (audio_speech_create Demo.env)
    (openai_api_key Demo.env).

(** A video of 60 s without audio track, a narration of 42.5 s. *)
Definition silent_video60 : VideoFile :=
  mkVideoFile (Some 60%float) None Demo.vcaps_v2.

Definition narration42 : AudioFile :=
  mkAudioFile (Some 42.5%float) Demo.caps_v2.

Definition env_silent_video : Env :=
  Demo.with_video (Ok silent_video60)
    (Demo.with_audio_file (Ok narration42) Demo.env).

(** A video whose container reports no duration. *)
Definition video_no_duration : VideoFile :=
  mkVideoFile None None Demo.vcaps_v2.

Definition env_no_duration : Env :=
  Demo.with_video (Ok video_no_duration) Demo.env.

(** [save_frame] fails past 20 s. *)
Definition env_frame_failure : Env :=
  mkEnv (os_path_exists Demo.env) (os_path_abspath Demo.env)
    (gettempdir Demo.env) (mkdtemp Demo.env) (video_file Demo.env)
    (audio_file Demo.env)
    (fun c => match c with
              | CallSaveFrame _ _ t =>
                  if PrimFloat.ltb 20 t then Some (LibraryError 5) else None
              | _ => None
              end)
    (encode_image Demo.env) (chat_completions_create Demo.env)
    (audio_speech_create Demo.env) (openai_api_key Demo.env).

(** * Properties *)

(** Unfold the monad so that a run computes. *)
Ltac unfold_m :=
  unfold lib_call, with_locals, try_finally, try_except_pass, lift,
    get_local, set_local, emit, fresh, bind, ret, raise.

(** ** Small checks of the helpers *)

Example format_0f_ex1 : format_0f 2.5%float = py "2".
Proof. reflexivity. Qed.
Example format_0f_ex2 : format_0f 3.5%float = py "4".
Proof. reflexivity. Qed.
Example format_0f_ex3 : format_0f (-0.4)%float = py "-0".
Proof. reflexivity. Qed.
Example format_0f_ex4 : format_0f 1234567.49%float = py "1234567".
Proof. reflexivity. Qed.
Example float_of_Z_ex : float_of_Z 3 = 3%float /\ float_of_Z 0 = 0%float.
Proof. split; reflexivity. Qed.

Example os_path_dirname_ex :
  os_path_dirname (py "/out/dir/merged.mp4") = py "/out/dir" /\
  os_path_dirname (py "/merged.mp4") = py "/" /\
  os_path_dirname (py "merged.mp4") = [].
Proof. repeat split; reflexivity. Qed.

(** ** Binary64 facts

    What the proofs below need of IEEE arithmetic, from the specification
    of the primitive operations: the float of a positive integer is
    positive, [0 * x] and [0 / x] are [0] for positive [x], [x - 0] is [x]. *)

Module FloatFacts.

Local Open Scope Z_scope.

Lemma digits2_size p : digits2_pos p = Pos.size p.
Proof. induction p; simpl; congruence. Qed.

Lemma digits_bounds p :
  2 ^ (Zpos (digits2_pos p) - 1) <= Zpos p < 2 ^ Zpos (digits2_pos p).
Proof.
  rewrite digits2_size. split.
  - pose proof (Pos.size_le p) as H.
    assert (Zpos (2 ^ Pos.size p) <= Zpos p~0) by exact H.
    rewrite Pos2Z.inj_pow in H0.
    replace (Zpos (Pos.size p)) with ((Zpos (Pos.size p) - 1) + 1) in H0 by lia.
    rewrite Z.pow_add_r in H0 by lia. lia.
  - pose proof (Pos.size_gt p) as H.
    assert (Zpos p < Zpos (2 ^ Pos.size p)) by exact H.
    now rewrite Pos2Z.inj_pow in H0.
Qed.

Lemma digits_unique q n :
  2 ^ (n - 1) <= Zpos q < 2 ^ n -> Zpos (digits2_pos q) = n.
Proof.
  intros [Hl Hu]. pose proof (digits_bounds q) as [Dl Du].
  assert (0 < n).
  { destruct (Z.ltb_spec 0 n) as [|Hn]; [assumption|].
    assert (2 ^ n <= 1); [|lia].
    destruct (Z.eq_dec n 0) as [->|]; [simpl; lia|].
    rewrite Z.pow_neg_r by lia. lia. }
  destruct (Z.lt_trichotomy (Zpos (digits2_pos q)) n) as [L|[E|G]]; [|exact E|].
  - assert (2 ^ Zpos (digits2_pos q) <= 2 ^ (n - 1)) by (apply Z.pow_le_mono_r; lia). lia.
  - assert (2 ^ n <= 2 ^ (Zpos (digits2_pos q) - 1)) by (apply Z.pow_le_mono_r; lia). lia.
Qed.

Lemma iter_xO_value p k : Zpos (Pos.iter xO p k) = Zpos p * 2 ^ Zpos k.
Proof.
  induction k as [|k IH] using Pos.peano_ind.
  - simpl. lia.
  - rewrite Pos.iter_succ, Pos2Z.inj_xO, IH, Pos2Z.inj_succ, Z.pow_succ_r by lia. lia.
Qed.

Lemma shr_1_m r : 0 <= shr_m r -> shr_m (shr_1 r) = Z.div2 (shr_m r).
Proof.
  destruct r as [m r s]. simpl. intros H.
  destruct m as [|[q|q|]|q]; simpl; try reflexivity; lia.
Qed.

Lemma iter_shr_m k :
  forall r, 0 <= shr_m r -> shr_m (iter_pos shr_1 k r) = shr_m r / 2 ^ Zpos k.
Proof.
  induction k as [k IH|k IH|]; intros r Hr; simpl iter_pos.
  - assert (H1 : 0 <= shr_m (shr_1 r)).
    { rewrite shr_1_m, Z.div2_div by assumption. apply Z.div_pos; lia. }
    assert (H2 : 0 <= shr_m (iter_pos shr_1 k (shr_1 r))).
    { rewrite IH by assumption. apply Z.div_pos; lia. }
    rewrite IH, IH, shr_1_m, Z.div2_div by assumption.
    rewrite !Z.div_div by lia.
    f_equal. change (Zpos k~1) with (2 * Zpos k + 1).
    replace (2 * Zpos k + 1) with (1 + Zpos k + Zpos k) by lia.
    rewrite !Z.pow_add_r by lia. lia.
  - assert (H2 : 0 <= shr_m (iter_pos shr_1 k r)).
    { rewrite IH by assumption. apply Z.div_pos; lia. }
    rewrite IH, IH by assumption.
    rewrite !Z.div_div by lia.
    f_equal. change (Zpos k~0) with (2 * Zpos k).
    replace (2 * Zpos k) with (Zpos k + Zpos k) by lia.
    rewrite !Z.pow_add_r by lia. lia.
  - rewrite shr_1_m, Z.div2_div by assumption. reflexivity.
Qed.

Definition sf_positive (x : spec_float) : Prop :=
  (exists m e, x = S754_finite false m e /\ bounded prec emax m e = true) \/
  x = S754_infinity false.

Lemma fexp_53 e : -1021 <= e -> fexp prec emax e = e - 53.
Proof. unfold fexp, SpecFloat.emin, prec, emax. lia. Qed.

(** Rounding a mantissa that has exactly 53 digits leaves it as it is. *)
Lemma binary_round_aux_53 m e :
  Zpos (digits2_pos m) = 53 -> -1074 <= e ->
  sf_positive (binary_round_aux prec emax false (Zpos m) e loc_Exact).
Proof.
  intros Hd He. unfold binary_round_aux, shr_fexp. simpl Zdigits2.
  rewrite Hd, fexp_53 by lia.
  replace (53 + e - 53 - e) with 0 by lia.
  cbn [shr shr_record_of_loc shr_m loc_of_shr_record round_nearest_even Zdigits2].
  rewrite Hd, fexp_53 by lia.
  replace (53 + e - 53 - e) with 0 by lia.
  cbn [shr shr_m]. change (emax - prec) with 971.
  destruct (e <=? 971) eqn:E; [|right; reflexivity].
  left. exists m, e. split; [reflexivity|].
  unfold bounded, canonical_mantissa. rewrite Hd, fexp_53 by lia.
  replace (53 + e - 53) with e by lia. rewrite Z.eqb_refl. simpl.
  exact E.
Qed.

(** The second half of [binary_round_aux]: renormalise after rounding. *)
Definition renormalise (sx : bool) (m e : Z) : spec_float :=
  let '(mrs'', e'') := shr_fexp prec emax m e loc_Exact in
  match shr_m mrs'' with
  | Z0 => S754_zero sx
  | Zpos m => if e'' <=? emax - prec then S754_finite sx m e'' else S754_infinity sx
  | _ => S754_nan
  end.

Lemma binary_round_aux_eq sx mx ex lx :
  binary_round_aux prec emax sx mx ex lx =
  let '(mrs', e') := shr_fexp prec emax mx ex lx in
  renormalise sx (round_nearest_even (shr_m mrs') (loc_of_shr_record mrs')) e'.
Proof. reflexivity. Qed.

Lemma round_nearest_even_cases m l :
  round_nearest_even m l = m \/ round_nearest_even m l = m + 1.
Proof.
  destruct l as [|[| |]]; simpl; auto. destruct (Z.even m); auto.
Qed.

Lemma finite_positive m e :
  Zpos (digits2_pos m) = 53 -> -1074 <= e ->
  sf_positive (if e <=? 971 then S754_finite false m e else S754_infinity false).
Proof.
  intros Hd He. destruct (e <=? 971) eqn:E; [|right; reflexivity].
  left. exists m, e. split; [reflexivity|].
  unfold bounded, canonical_mantissa. rewrite Hd, fexp_53 by lia.
  replace (53 + e - 53) with e by lia. rewrite Z.eqb_refl. exact E.
Qed.

Lemma renormalise_positive q e :
  2 ^ 52 <= Zpos q <= 2 ^ 53 -> -1074 <= e ->
  sf_positive (renormalise false (Zpos q) e).
Proof.
  intros [Hl Hu] He. unfold renormalise, shr_fexp. cbn [Zdigits2].
  destruct (Z.eq_dec (Zpos q) (2 ^ 53)) as [E|NE].
  - assert (Hd : Zpos (digits2_pos q) = 54) by (apply digits_unique; rewrite E; simpl; lia).
    rewrite Hd, fexp_53 by lia.
    replace (54 + e - 53 - e) with 1 by lia.
    cbn [shr shr_record_of_loc iter_pos]. rewrite E.
    change (shr_m (shr_1 {| shr_m := 2 ^ 53; shr_r := false; shr_s := false |}))
      with (Zpos (2 ^ 52)).
    cbv beta iota. change (emax - prec) with 971.
    apply finite_positive; [reflexivity|lia].
  - assert (Hd : Zpos (digits2_pos q) = 53) by (apply digits_unique; simpl; lia).
    rewrite Hd, fexp_53 by lia.
    replace (53 + e - 53 - e) with 0 by lia.
    cbn [shr shr_record_of_loc shr_m]. change (emax - prec) with 971.
    now apply finite_positive.
Qed.

Lemma binary_round_int_positive p :
  sf_positive (binary_round prec emax false p 0).
Proof.
  unfold binary_round. pose proof (digits_bounds p) as [Dl Du].
  set (d := Zpos (digits2_pos p)) in *.
  assert (Hd1 : 1 <= d) by (unfold d; lia).
  rewrite fexp_53 by lia. unfold shl_align.
  replace (d + 0 - 53 - 0) with (d - 53) by lia.
  destruct (d - 53) as [|k|k] eqn:Ek.
  - apply binary_round_aux_53; [fold d; lia|lia].
  - rewrite binary_round_aux_eq. unfold shr_fexp. cbn [Zdigits2]. fold d.
    rewrite fexp_53 by lia.
    replace (d + 0 - 53 - 0) with (Zpos k) by lia.
    cbn [shr shr_record_of_loc].
    set (R := iter_pos shr_1 k _).
    assert (HR : shr_m R = Zpos p / 2 ^ Zpos k).
    { unfold R. rewrite iter_shr_m; simpl; [reflexivity|lia]. }
    assert (Hb : 2 ^ 52 <= shr_m R < 2 ^ 53).
    { rewrite HR. assert (Ed : d = 52 + 1 + Zpos k) by lia.
      split.
      - apply Z.div_le_lower_bound; [lia|].
        replace (d - 1) with (Zpos k + 52) in Dl by lia.
        rewrite Z.pow_add_r in Dl by lia. lia.
      - apply Z.div_lt_upper_bound; [lia|].
        replace d with (Zpos k + 53) in Du by lia.
        rewrite Z.pow_add_r in Du by lia. lia. }
    destruct (round_nearest_even_cases (shr_m R) (loc_of_shr_record R)) as [E|E];
      rewrite E.
    + destruct (shr_m R) as [|q|q] eqn:Eq; try (simpl in Hb; lia).
      apply renormalise_positive; lia.
    + destruct (shr_m R + 1) as [|q|q] eqn:Eq; try lia.
      apply renormalise_positive; lia.
  - assert (Hd : Zpos (digits2_pos (Pos.iter xO p k)) = 53).
    { apply digits_unique. rewrite iter_xO_value.
      assert (Ed : 53 = d + Zpos k) by lia.
      split.
      - replace (53 - 1) with ((d - 1) + Zpos k) by lia.
        rewrite Z.pow_add_r by lia. apply Z.mul_le_mono_nonneg_r; lia.
      - rewrite Ed, Z.pow_add_r by lia. apply Z.mul_lt_mono_pos_r; lia. }
    apply binary_round_aux_53; [exact Hd|lia].
Qed.

Lemma sf_positive_valid x : sf_positive x -> valid_binary x = true.
Proof.
  intros [[m [e [-> H]]]| ->]; [exact H|reflexivity].
Qed.

(** The float of a positive integer is a positive number (or infinity). *)
Lemma float_of_Z_positive (k : Z) : 1 <= k -> positive_float (float_of_Z k).
Proof.
  intros Hk. destruct k as [|p|p]; try lia.
  unfold positive_float, float_of_Z. rewrite ltb_spec.
  cbn [binary_normalize].
  pose proof (binary_round_int_positive p) as H.
  rewrite Prim2SF_SF2Prim by now apply sf_positive_valid.
  destruct H as [[m [e [-> _]]]| ->]; reflexivity.
Qed.

Local Close Scope Z_scope.
Local Open Scope float_scope.

Lemma Prim2SF_zero : Prim2SF 0 = S754_zero false.
Proof. reflexivity. Qed.

Lemma Prim2SF_infinity : Prim2SF infinity = S754_infinity false.
Proof. reflexivity. Qed.

(** [0 * x = 0] for a positive finite [x]. *)
Lemma zero_mul_positive x :
  positive_float x -> finite_float x -> 0 * x = 0.
Proof.
  unfold positive_float, finite_float. rewrite !ltb_spec, abs_spec.
  intros Hp Hf. apply Prim2SF_inj. rewrite mul_spec.
  rewrite Prim2SF_zero in *. rewrite Prim2SF_infinity in Hf.
  destruct (Prim2SF x) as [s|s| |s m e]; try discriminate.
  destruct s; [discriminate|reflexivity].
Qed.

(** [0 / x = 0] for a positive [x]. *)
Lemma zero_div_positive x : positive_float x -> 0 / x = 0.
Proof.
  unfold positive_float. rewrite ltb_spec. intros Hp.
  apply Prim2SF_inj. rewrite div_spec. rewrite Prim2SF_zero in *.
  destruct (Prim2SF x) as [s|s| |s m e]; try discriminate.
  - destruct s; [discriminate|reflexivity].
  - destruct s; [discriminate|reflexivity].
Qed.

(** [x - 0 = x] *)
Lemma sub_zero x : x - 0 = x.
Proof.
  apply Prim2SF_inj. rewrite sub_spec, Prim2SF_zero.
  destruct (Prim2SF x) as [s|s| |s m e]; try reflexivity.
  destruct s; reflexivity.
Qed.

End FloatFacts.

Lemma positive_float_tests d :
  positive_float d -> truthy_float d = true /\ PrimFloat.leb d 0 = false.
Proof.
  unfold positive_float, truthy_float.
  rewrite ltb_spec, eqb_spec, leb_spec. rewrite FloatFacts.Prim2SF_zero.
  destruct (Prim2SF d) as [s|s| |s m e]; try discriminate;
    destruct s; try discriminate; intros _; split; reflexivity.
Qed.

Lemma not_negative_not_below_zero x :
  PrimFloat.leb 0 x = true -> PrimFloat.ltb x 0 = false.
Proof.
  rewrite leb_spec, ltb_spec, FloatFacts.Prim2SF_zero.
  destruct (Prim2SF x) as [s|s| |s m e]; try discriminate;
    destruct s; try discriminate; reflexivity.
Qed.

(** ** Code fences (generate_text, generate_image_description)

    Removing the occurrences of a pattern can, in general, bring a new
    occurrence together (["aabb".replace("ab", "")] is ["ab"]).  For the
    fence, three equal code points, it cannot: a run of [k] backticks is cut
    down to [k mod 3] of them, and what stands between two runs is kept. *)

Example strip_fences_ex1 :
  strip_fences (py "``````html`<p>hi</p>```") = py "`<p>hi</p>".
Proof. reflexivity. Qed.

Lemma fence_ticks : fence = [tick; tick; tick].
Proof. reflexivity. Qed.

Lemma fence_html_fence : fence_html = fence ++ py "html".
Proof. reflexivity. Qed.

Lemma lead_two_startswith s :
  2 <= lead s -> startswith [tick; tick] s = true.
Proof.
  destruct s as [|a [|b s]]; cbn [lead startswith]; intros H.
  - lia.
  - destruct (N.eqb tick a); lia.
  - destruct (N.eqb tick a); [|lia].
    destruct (N.eqb tick b); [reflexivity|lia].
Qed.

Lemma startswith_app p s : startswith p (p ++ s) = true.
Proof.
  induction p as [|a p IH]; simpl; [reflexivity|].
  now rewrite N.eqb_refl.
Qed.

Lemma startswith_split p s :
  startswith p s = true -> s = p ++ skipn (length p) s.
Proof.
  revert s. induction p as [|a p IH]; intros s H; simpl in *; [reflexivity|].
  destruct s as [|c s]; [discriminate|].
  apply andb_prop in H. destruct H as [Hc Hs].
  apply N.eqb_eq in Hc. subst c. simpl. f_equal. now apply IH.
Qed.

Lemma contains_cons_inv sub c s :
  contains sub (c :: s) -> startswith sub (c :: s) = true \/ contains sub s.
Proof.
  intros [pre [post E]]. destruct pre as [|a pre]; simpl in E.
  - left. rewrite E. apply startswith_app.
  - right. injection E as _ E. now exists pre, post.
Qed.

Lemma contains_prefix sub ext s : contains (sub ++ ext) s -> contains sub s.
Proof.
  intros [pre [post E]]. exists pre, (ext ++ post). now rewrite E, <- app_assoc.
Qed.

Lemma py_in_contains sub s : py_in sub s = true <-> contains sub s.
Proof.
  split.
  - induction s as [|c s IH]; simpl; intros H.
    + rewrite orb_false_r in H. apply startswith_split in H.
      exists [], (skipn (length sub) []). exact H.
    + apply orb_prop in H. destruct H as [H|H].
      * apply startswith_split in H. now exists [], (skipn (length sub) (c :: s)).
      * destruct (IH H) as [pre [post E]]. exists (c :: pre), post. now rewrite E.
  - induction s as [|c s IH]; intros H.
    + destruct H as [pre [post E]]. destruct pre; [|discriminate].
      simpl in E. destruct sub; [reflexivity|discriminate].
    + simpl. destruct (contains_cons_inv H) as [H1|H1].
      * simpl in H1. now rewrite H1.
      * rewrite (IH H1). apply orb_true_r.
Qed.

(** One pass of [replace("```", "")]: the result starts with no more
    backticks than the input did, and holds no fence. *)
Lemma replace_fence_clean s :
  lead (replace_ne tick [tick; tick] [] s) <= lead s /\
  ~ contains fence (replace_ne tick [tick; tick] [] s).
Proof.
  remember (length s) as n eqn:Hn.
  revert s Hn. induction n as [n IH] using lt_wf_ind. intros s Hn.
  destruct s as [|c s'].
  - simp replace_ne. split; [simpl; lia|].
    intros [pre [post E]]. rewrite fence_ticks in E.
    destruct pre; discriminate.
  - simp replace_ne.
    destruct (N.eqb tick c && startswith [tick; tick] s') eqn:E.
    + apply andb_prop in E. destruct E as [Ec Es].
      destruct s' as [|a [|b s'']]; cbn [startswith] in Es;
        try (apply andb_prop in Es; destruct Es as [Ea Es]);
        try discriminate.
      apply andb_prop in Es. destruct Es as [Eb _].
      assert (Hlen : length s'' < n) by (subst n; simpl; lia).
      destruct (IH _ Hlen s'' eq_refl) as [IHl IHc].
      cbn [app length skipn]. split; [|exact IHc].
      cbn [lead]. rewrite Ec, Ea, Eb. lia.
    + assert (Hlen : length s' < n) by (subst n; simpl; lia).
      destruct (IH _ Hlen s' eq_refl) as [IHl IHc].
      split.
      * cbn [lead]. destruct (N.eqb tick c); lia.
      * intros H. apply contains_cons_inv in H. destruct H as [H|H]; [|tauto].
        rewrite fence_ticks in H. cbn [startswith] in H.
        apply andb_prop in H. destruct H as [Hc H].
        rewrite Hc in E. cbn [andb] in E.
        rewrite lead_two_startswith in E; [discriminate|].
        destruct (replace_ne tick [tick; tick] [] s') as [|a [|b r]];
          cbn [startswith] in H; try discriminate.
        { apply andb_prop in H. destruct H as [_ H]. discriminate. }
        apply andb_prop in H. destruct H as [Ha H].
        apply andb_prop in H. destruct H as [Hb _].
        cbn [lead] in IHl. rewrite Ha, Hb in IHl. lia.
Qed.

Lemma replace_fence_eq s : replace fence [] s = replace_ne tick [tick; tick] [] s.
Proof. reflexivity. Qed.

(** Whatever the response, the stripped text holds neither marker. *)
Lemma strip_fences_clean response :
  ~ contains fence (strip_fences response) /\
  ~ contains fence_html (strip_fences response).
Proof.
  unfold strip_fences. rewrite replace_fence_eq.
  pose proof (replace_fence_clean (replace fence_html [] response)) as [_ H].
  split; [exact H|].
  intros C. apply H. rewrite fence_html_fence in C.
  now apply contains_prefix in C.
Qed.

Lemma chat_create_run env req w :
  chat_create env req w =
  (match chat_completions_create env req with
   | Ok c => Ok c
   | Raise e => Raise e
   end, mkWorld (w_log w ++ [EvChatCompletion req]) (w_next w)).
Proof.
  unfold chat_create. unfold_m. simpl.
  destruct (chat_completions_create env req); reflexivity.
Qed.

Lemma generate_text_returns env self prompt instructions model output_type
    temperature w out w' :
  generate_text env self prompt instructions model output_type temperature w
    = (Ok out, w') ->
  exists content, out = strip_fences (content_or_empty content).
Proof.
  unfold generate_text, bind. rewrite chat_create_run.
  destruct (chat_completions_create env _) as [c|e]; [|discriminate].
  unfold ret. intros H. injection H as H _. now exists c.
Qed.

Lemma generate_image_description_returns env self image_paths instructions
    model max_tokens w out w' :
  generate_image_description env self image_paths instructions model
    max_tokens w = (Ok out, w') ->
  exists content, out = strip_fences (content_or_empty content).
Proof.
  unfold generate_image_description, bind.
  destruct (image_urls_of env _ w) as [[urls|e] w1]; [|discriminate].
  rewrite chat_create_run.
  destruct (chat_completions_create env _) as [c|e]; [|discriminate].
  unfold ret. intros H. injection H as H _. now exists c.
Qed.

(** C7: whatever text the backend answers, the value [generate_text]
    returns, and the value [generate_image_description] returns, contains
    neither the substring "```html" nor the substring "```". *)
Theorem returned_text_is_fence_free env self w out w' :
  (forall prompt instructions model output_type temperature,
      generate_text env self prompt instructions model output_type
        temperature w = (Ok out, w') -> fence_free out) /\
  (forall image_paths instructions model max_tokens,
      generate_image_description env self image_paths instructions model
        max_tokens w = (Ok out, w') -> fence_free out).
Proof.
  split; intros.
  - destruct (generate_text_returns _ _ _ _ _ _ _ _ H) as [c ->].
    apply strip_fences_clean.
  - destruct (generate_image_description_returns _ _ _ _ _ _ _ H) as [c ->].
    apply strip_fences_clean.
Qed.

Lemma returned_text_is_fence_free_witness :
  let run := generate_text Demo.env Demo.jarvis (py "What is on the picture?")
               Demo.instructions gpt_4o_mini (py "text") 1%float Demo.w0 in
  fst run = Ok (py "<p>A calm lake at dawn.</p>") /\
  fence_free (py "<p>A calm lake at dawn.</p>").
Proof.
  intros run. split; [reflexivity|].
  apply (proj1 (@returned_text_is_fence_free Demo.env Demo.jarvis Demo.w0
                  (py "<p>A calm lake at dawn.</p>") (snd run))
           (py "What is on the picture?") Demo.instructions gpt_4o_mini
           (py "text") 1%float).
  reflexivity.
Defined.

(** ** Empty narration (generate_audio) *)

Lemma lstrip_whitespace s : whitespace_only s -> lstrip s = [].
Proof.
  unfold whitespace_only. induction s as [|c s IH]; simpl; [reflexivity|].
  intros H. apply andb_prop in H. destruct H as [Hc Hs].
  rewrite Hc. now apply IH.
Qed.

Lemma strip_whitespace s : whitespace_only s -> strip s = [].
Proof.
  intros H. unfold strip. now rewrite (lstrip_whitespace H).
Qed.

(** C9: when the text is empty or white space only, [generate_audio]
    raises the input error and leaves the world as it was: no request was
    sent to the backend, no file was written. *)
Theorem generate_audio_rejects_blank env self text file_path model voice speed w :
  text = [] \/ whitespace_only text ->
  generate_audio env self text file_path model voice speed w =
    (Raise (ValueError (py "Cannot generate audio from empty text.")), w).
Proof.
  intros H.
  assert (Hs : strip text = []).
  { destruct H as [->|H]; [reflexivity|now apply strip_whitespace]. }
  unfold generate_audio. rewrite Hs. simpl.
  rewrite orb_true_r. reflexivity.
Qed.

Lemma generate_audio_rejects_blank_witness :
  whitespace_only (py "  ") /\
  generate_audio Demo.env Demo.jarvis (py "  ") (py "/out/voice.mp3")
    (py "gpt-4o-mini-tts") (py "nova") 1%float Demo.w0 =
  (Raise (ValueError (py "Cannot generate audio from empty text.")), Demo.w0).
Proof.
  split; [reflexivity|].
  apply (@generate_audio_rejects_blank Demo.env Demo.jarvis (py "  ")).
  right. reflexivity.
Defined.

(** ** Volume scaling (_scale_volume) *)

(** C4: with the multiplier 1.0, [_scale_volume] returns the very clip it
    was given (the same object, [None] included) and calls nothing: no new
    clip is made and the world is as before. *)
Theorem scale_volume_one_is_identity env (audio_clip : option AudioClip) w :
  _scale_volume env audio_clip 1%float w = (Ok audio_clip, w).
Proof.
  unfold _scale_volume.
  change (PrimFloat.eqb 1 1) with true.
  cbn [orb]. unfold ret. reflexivity.
Qed.

(** C10: a clip that has neither [with_volume_scaled] nor [volumex] comes
    back as it is, whatever the multiplier: nothing is raised, nothing is
    called, and the requested volume is not applied. *)
Theorem scale_volume_unsupported_is_dropped env (clip : AudioClip)
    (volume : float) w :
  has_with_volume_scaled (a_caps clip) = false ->
  has_volumex (a_caps clip) = false ->
  _scale_volume env (Some clip) volume w = (Ok (Some clip), w).
Proof.
  intros H1 H2. unfold _scale_volume. rewrite H1, H2. simpl.
  rewrite orb_false_r. destruct (PrimFloat.eqb volume 1); reflexivity.
Qed.

Lemma scale_volume_unsupported_is_dropped_witness :
  _scale_volume Demo.env (Some plain_clip) 0.5%float Demo.w0 =
  (Ok (Some plain_clip), Demo.w0).
Proof.
  apply (@scale_volume_unsupported_is_dropped Demo.env plain_clip 0.5%float
           Demo.w0 eq_refl eq_refl).
Defined.

(** ** Frame sampling (generate_video_description) *)

Lemma frame_events_length h temp_dir ts :
  forall i, length (frame_events h temp_dir i ts) = length ts.
Proof. induction ts as [|t ts IH]; intros i; simpl; [reflexivity|]. now rewrite IH. Qed.

(** When no [save_frame] call fails the loop writes every frame. *)
Lemma save_frames_run env video temp_dir ts :
  (forall p t, lib_raises env (CallSaveFrame (v_oid video) p t) = None) ->
  forall i w,
    save_frames env video temp_dir i ts w =
    (Ok (map (frame_path temp_dir) (seq i (length ts))),
     mkWorld (w_log w ++ frame_events (v_reader video) temp_dir i ts) (w_next w)).
Proof.
  intros Hok. induction ts as [|t ts IH]; intros i w.
  - simpl. unfold ret. rewrite app_nil_r. now destruct w.
  - cbn [save_frames]. unfold bind at 1. unfold save_frame.
    unfold_m. rewrite Hok. unfold_m. cbn [w_log w_next].
    match goal with |- context [save_frames _ _ _ _ _ ?w1] => rewrite (IH (S i) w1) end.
    cbn [w_log w_next length seq map frame_events]. rewrite <- app_assoc. reflexivity.
Qed.

(** Whatever fails, the loop does nothing but [save_frame] calls. *)
Lemma save_frames_log env video temp_dir ts :
  forall i w, exists X,
    snd (save_frames env video temp_dir i ts w) =
      mkWorld (w_log w ++ X) (w_next w) /\
    forallb is_save_frame X = true.
Proof.
  induction ts as [|t ts IH]; intros i w.
  - exists []. simpl. rewrite app_nil_r. now destruct w.
  - cbn [save_frames]. unfold bind at 1. unfold save_frame. unfold_m.
    destruct (lib_raises env _) as [e|].
    + exists [EvSaveFrame (v_reader video) (frame_path temp_dir i) t]. now simpl.
    + unfold_m. cbn [w_log w_next].
      match goal with |- context [save_frames _ _ _ _ _ ?w1] =>
        destruct (IH (S i) w1) as [X [E HX]];
        destruct (save_frames env video temp_dir (S i) ts w1) as [[ps|e] w2]
      end; simpl in E; subst w2;
        exists (EvSaveFrame (v_reader video) (frame_path temp_dir i) t :: X);
        cbn [snd w_log w_next]; rewrite <- app_assoc; now simpl.
Qed.

Lemma sample_timestamps_many D N :
  (2 <= N)%Z ->
  sample_timestamps D N =
  map (fun i => (float_of_Z i * D / float_of_Z (N - 1))%float) (range N).
Proof.
  intros H. unfold sample_timestamps.
  destruct (Z.leb_spec N 1); [lia|reflexivity].
Qed.

Lemma range_length N : length (range N) = Z.to_nat N.
Proof. unfold range. now rewrite length_map, length_seq. Qed.

Lemma range_nth N i :
  (0 <= i < N)%Z -> nth_error (range N) (Z.to_nat i) = Some i.
Proof.
  intros H. unfold range. rewrite nth_error_map.
  rewrite (nth_error_nth' _ 0%nat) by (rewrite length_seq; lia).
  rewrite seq_nth by lia. simpl. f_equal. lia.
Qed.

Lemma sample_frames_positive env video temp_dir N D w :
  v_duration video = Some D -> positive_float D ->
  sample_frames env video temp_dir N w =
  save_frames env video temp_dir 0 (sample_timestamps D N) w.
Proof.
  intros Hd Hp. unfold sample_frames. rewrite Hd.
  destruct (positive_float_tests Hp) as [-> ->]. reflexivity.
Qed.


(** The spec's scenario: 60 seconds, 5 frames. *)
Example frame_timestamps_60s_5 :
  sample_timestamps 60 5 = [0; 15; 30; 45; 60]%float.
Proof. reflexivity. Qed.



(** ** Rejecting a video without duration (generate_video_description) *)

Lemma sample_frames_non_positive env video temp_dir N w :
  non_positive_duration (v_duration video) ->
  sample_frames env video temp_dir N w = (Raise duration_error, w).
Proof.
  unfold sample_frames, non_positive_duration.
  destruct (v_duration video) as [d|]; [|reflexivity].
  intros H. destruct (truthy_float d); [now rewrite H|reflexivity].
Qed.

(** What [generate_video_description] does once the path exists and the
    video opens: in a temporary directory [d], with the video open on the
    handle [h], it runs the sampling under [try .. finally video.close()],
    then the vision request; the directory is removed at the end. *)
Lemma generate_video_description_run env self video_path instructions model
    N w vf :
  os_path_exists env video_path = true ->
  video_file env video_path = Ok vf ->
  let d := mkdtemp env (w_next w) in
  let h := S (w_next w) in
  exists video w1,
    v_reader video = h /\ v_oid video = h /\
    v_duration video = vf_duration vf /\
    w_log w1 = w_log w ++ [EvMkdtemp d; EvOpenVideo video_path h] /\
    generate_video_description env self video_path instructions model N w =
    (let '(r, w2) :=
       bind (try_finally (sample_frames env video d N) (close_video env video))
            (fun image_paths =>
               generate_image_description env self (StrList image_paths)
                 instructions model 1000) w1 in
     (r, mkWorld (w_log w2 ++ [EvRmtree d]) (w_next w2))).
Proof.
  intros Hex Hvf d h. unfold generate_video_description.
  rewrite Hex. cbn [negb]. unfold with_TemporaryDirectory, VideoFileClip.
  rewrite Hvf.
  destruct (vf_audio vf) as [[da caps]|].
  - exists (mkVideo h (vf_caps vf) h (vf_duration vf)
              (Some (mkAudio (S h) caps da [] (Some h) []))),
           (mkWorld (w_log w ++ [EvMkdtemp d; EvOpenVideo video_path h]) (S (S h))).
    repeat split.
    unfold bind at 1. unfold fresh at 1. unfold bind at 1. unfold emit at 1.
    cbn [w_log w_next]. unfold try_finally at 1.
    unfold bind at 1. unfold bind at 1. unfold fresh at 1.
    cbn [w_log w_next]. unfold bind at 1. unfold emit at 1.
    cbn [w_log w_next]. unfold bind at 1. unfold bind at 1.
    unfold fresh at 1. cbn [w_log w_next]. unfold ret at 1. unfold ret at 1.
    rewrite <- app_assoc. cbn [app]. fold d. fold h.
    match goal with |- (let (r, s') := ?X in _) = _ =>
      destruct X as [r w2] end.
    unfold emit. reflexivity.
  - exists (mkVideo h (vf_caps vf) h (vf_duration vf) None),
           (mkWorld (w_log w ++ [EvMkdtemp d; EvOpenVideo video_path h]) (S h)).
    repeat split.
    unfold bind at 1. unfold fresh at 1. unfold bind at 1. unfold emit at 1.
    cbn [w_log w_next]. unfold try_finally at 1.
    unfold bind at 1. unfold bind at 1. unfold fresh at 1.
    cbn [w_log w_next]. unfold bind at 1. unfold emit at 1.
    cbn [w_log w_next]. unfold bind at 1. unfold ret at 1. unfold ret at 1.
    rewrite <- app_assoc. cbn [app]. fold d. fold h.
    match goal with |- (let (r, s') := ?X in _) = _ =>
      destruct X as [r w2] end.
    unfold emit. reflexivity.
Qed.

Lemma image_urls_of_world env ps w : snd (image_urls_of env ps w) = w.
Proof.
  induction ps as [|p ps IH]; [reflexivity|].
  cbn [image_urls_of]. unfold bind at 1.
  destruct (encode_image env p) as [b|e]; [|reflexivity].
  unfold bind at 1. destruct (image_urls_of env ps w) as [[urls|e] w1];
    simpl in IH; subst w1; reflexivity.
Qed.

(** The vision request adds at most one event, the request itself. *)
Lemma generate_image_description_log env self image_paths instructions model
    max_tokens w :
  exists Y,
    snd (generate_image_description env self image_paths instructions model
           max_tokens w) = mkWorld (w_log w ++ Y) (w_next w) /\
    forallb is_backend_call Y = true.
Proof.
  unfold generate_image_description. unfold bind at 1.
  match goal with |- context [image_urls_of env ?ps w] =>
    pose proof (image_urls_of_world env ps w) as Hw;
    destruct (image_urls_of env ps w) as [[urls|e] w1] end;
    simpl in Hw; subst w1.
  - unfold bind at 1. rewrite chat_create_run.
    eexists [_]. destruct (chat_completions_create env _); split; reflexivity.
  - exists []. split; [|reflexivity]. simpl. rewrite app_nil_r. now destruct w.
Qed.




(** ** Merging (merge_video_with_audio): the body of the [try] *)

Lemma derived_refl c : derived c c.
Proof. repeat split. Qed.

Lemma derived_trans c1 c2 c3 : derived c1 c2 -> derived c2 c3 -> derived c1 c3.
Proof. unfold derived. intuition congruence. Qed.

Lemma scale_volume_spec env a volume w :
  w_log (snd (_scale_volume env a volume w)) = w_log w /\
  match fst (_scale_volume env a volume w) with
  | Ok a' => scaled_like a volume a'
  | Raise _ => True
  end.
Proof.
  unfold _scale_volume, scaled_like, volume_fx, scaled.
  destruct (PrimFloat.eqb volume 1) eqn:E1; cbn [orb].
  - unfold ret. cbn [fst snd]. split; [reflexivity|].
    destruct a as [c|]; [|exact I].
    rewrite app_nil_r. split; [apply derived_refl|now split].
  - destruct a as [c|]; cbn [is_None]; [|now split].
    destruct (has_with_volume_scaled (a_caps c)); cbn [orb].
    + unfold_m. destruct (lib_raises env _); cbn [fst snd w_log]; [now split|].
      split; [reflexivity|]. destruct c; repeat split.
    + destruct (has_volumex (a_caps c)).
      * unfold_m. destruct (lib_raises env _); cbn [fst snd w_log]; [now split|].
        split; [reflexivity|]. destruct c; repeat split.
      * unfold ret. cbn [fst snd]. split; [reflexivity|].
        rewrite app_nil_r. split; [apply derived_refl|now split].
Qed.

Lemma subclip_spec env c t_end w :
  w_log (snd (_subclip env (Some c) t_end w)) = w_log w /\
  match fst (_subclip env (Some c) t_end w) with
  | Ok (Some c') => trimmed_like c t_end c'
  | Ok None => False
  | Raise _ => True
  end.
Proof.
  unfold _subclip, trimmed_like, trim_end, subclipped.
  destruct (has_subclipped (a_caps c)).
  - unfold_m. destruct (lib_raises env _); cbn [fst snd w_log]; [now split|].
    split; [reflexivity|]. destruct c; repeat split.
  - destruct (has_subclip (a_caps c)); [|now split].
    unfold_m. destruct (lib_raises env _); cbn [fst snd w_log]; [now split|].
    split; [reflexivity|]. destruct c; repeat split.
Qed.

Lemma composite_spec env clips w :
  w_log (snd (CompositeAudioClip env clips w)) = w_log w /\
  match fst (CompositeAudioClip env clips w) with
  | Ok mix =>
      a_reader mix = None /\ a_tracks mix = clips /\ a_fx mix = [] /\
      a_duration mix = mix_duration clips
  | Raise _ => True
  end.
Proof.
  unfold CompositeAudioClip. unfold_m.
  destruct (lib_raises env _); cbn [fst snd w_log]; [now split|].
  repeat split.
Qed.

Lemma set_audio_spec env vc audio w :
  w_log (snd (_set_audio env vc audio w)) = w_log w /\
  match fst (_set_audio env vc audio w) with
  | Ok fc =>
      v_reader fc = v_reader vc /\ v_duration fc = v_duration vc /\
      v_audio fc = audio
  | Raise _ => True
  end.
Proof.
  unfold _set_audio, with_audio.
  destruct (has_with_audio (v_caps vc)).
  - unfold_m. destruct (lib_raises env _); cbn [fst snd w_log]; [now split|].
    repeat split.
  - destruct (has_set_audio (v_caps vc)); [|now split].
    unfold_m. destruct (lib_raises env _); cbn [fst snd w_log]; [now split|].
    repeat split.
Qed.

(** Mixing, attaching and writing, on every path: [final_clip] is bound
    only to the merged clip, and then the write was called. *)
Lemma merge_compose_spec env vc o' merged tmp narr w :
  match merge_compose env vc o' merged tmp (mkLocals (Some narr) None, w) with
  | (r, (l, w2)) =>
      added_audio_clip l = Some narr /\
      match final_clip l with
      | None => w_log w2 = w_log w /\ exists e, r = Raise e
      | Some fc =>
          v_reader fc = v_reader vc /\ v_duration fc = v_duration vc /\
          match o' with
          | None => v_audio fc = Some narr
          | Some o1 =>
              exists mix,
                v_audio fc = Some mix /\
                a_reader mix = None /\ a_tracks mix = [o1; narr] /\
                a_fx mix = [] /\ a_duration mix = mix_duration [o1; narr]
          end /\
          w_log w2 = w_log w ++ [EvWriteVideofile fc merged libx264 aac tmp] /\
          r = match lib_raises env (CallWriteVideofile (v_oid fc) merged) with
              | Some e => Raise e
              | None => Ok merged
              end
      end
  end.
Proof.
  unfold merge_compose.
  unfold bind at 1. unfold get_local at 1. cbn [added_audio_clip].
  unfold bind at 1.
  assert (Tail : forall fa w',
    w_log w' = w_log w ->
    match o' with
    | None => fa = Some narr
    | Some o1 =>
        exists mix, fa = Some mix /\
          a_reader mix = None /\ a_tracks mix = [o1; narr] /\
          a_fx mix = [] /\ a_duration mix = mix_duration [o1; narr]
    end ->
    match
      (fc <- lift (_set_audio env vc fa) ;;
       set_local (fun l => mkLocals (added_audio_clip l) (Some fc)) ;;
       lift (write_videofile env fc merged libx264 aac tmp) ;;
       ret merged) (mkLocals (Some narr) None, w')
    with
    | (r, (l, w2)) =>
      added_audio_clip l = Some narr /\
      match final_clip l with
      | None => w_log w2 = w_log w /\ exists e, r = Raise e
      | Some fc =>
          v_reader fc = v_reader vc /\ v_duration fc = v_duration vc /\
          match o' with
          | None => v_audio fc = Some narr
          | Some o1 =>
              exists mix,
                v_audio fc = Some mix /\
                a_reader mix = None /\ a_tracks mix = [o1; narr] /\
                a_fx mix = [] /\ a_duration mix = mix_duration [o1; narr]
          end /\
          w_log w2 = w_log w ++ [EvWriteVideofile fc merged libx264 aac tmp] /\
          r = match lib_raises env (CallWriteVideofile (v_oid fc) merged) with
              | Some e => Raise e
              | None => Ok merged
              end
      end
    end).
  { intros fa w' Hw Hfa.
    unfold bind at 1. unfold lift at 1.
    pose proof (set_audio_spec env vc fa w') as [L S].
    destruct (_set_audio env vc fa w') as [[fc|e] w3]; cbn [fst snd] in L, S.
    2:{ cbn [added_audio_clip final_clip]. split; [reflexivity|].
        split; [congruence|now exists e]. }
    destruct S as [Sr [Sd Sa]].
    unfold write_videofile. unfold_m. cbn [added_audio_clip final_clip w_log].
    destruct (lib_raises env (CallWriteVideofile (v_oid fc) merged)) as [e|] eqn:Ew;
      cbn [added_audio_clip final_clip w_log];
      (split; [reflexivity|]); (split; [exact Sr|]); (split; [exact Sd|]);
      (split; [rewrite Sa; exact Hfa|]);
      (split; [rewrite L, Hw; reflexivity|rewrite Ew; reflexivity]). }
  destruct o' as [o1|].
  - unfold bind at 1. unfold lift at 1.
    pose proof (composite_spec env [o1; narr] w) as [L S].
    destruct (CompositeAudioClip env [o1; narr] w) as [[mix|e] w3];
      cbn [fst snd] in L, S.
    2:{ cbn [added_audio_clip final_clip]. split; [reflexivity|].
        split; [exact L|now exists e]. }
    unfold ret at 1. apply Tail; [exact L|].
    exists mix. destruct S as [S1 [S2 [S3 S4]]]. now repeat split.
  - unfold ret at 1. apply Tail; reflexivity.
Qed.

(** The body of the [try], on every path: the narration variable always
    holds a clip on the narration's reader; [final_clip] is bound only to
    the merged clip, and then the write was called, and only then. *)
Lemma merge_try_spec env vc merged tmp vv av c0 w1 :
  match merge_try env vc merged tmp vv av (mkLocals (Some c0) None, w1) with
  | (r, (l, w2)) =>
      exists narr,
        added_audio_clip l = Some narr /\ derived c0 narr /\
        match final_clip l with
        | None => w_log w2 = w_log w1 /\ exists e, r = Raise e
        | Some fc =>
            merged_clip_like vc c0 vv av narr fc /\
            w_log w2 = w_log w1 ++ [EvWriteVideofile fc merged libx264 aac tmp] /\
            r = match lib_raises env (CallWriteVideofile (v_oid fc) merged) with
                | Some e => Raise e
                | None => Ok merged
                end
        end
  end.
Proof.
  unfold merge_try.
  unfold bind at 1. unfold lift at 1.
  pose proof (scale_volume_spec env (v_audio vc) vv w1) as [L1 S1].
  destruct (_scale_volume env (v_audio vc) vv w1) as [[o'|e] wa];
    cbn [fst snd] in L1, S1.
  2:{ exists c0. cbn [added_audio_clip final_clip].
      split; [reflexivity|split; [apply derived_refl|]].
      split; [exact L1|now exists e]. }
  unfold bind at 1. unfold get_local at 1. cbn [added_audio_clip].
  unfold bind at 1. unfold lift at 1.
  pose proof (scale_volume_spec env (Some c0) av wa) as [L2 S2].
  destruct (_scale_volume env (Some c0) av wa) as [[a1|e] wb];
    cbn [fst snd] in L2, S2.
  2:{ exists c0. cbn [added_audio_clip final_clip].
      split; [reflexivity|split; [apply derived_refl|]].
      split; [congruence|now exists e]. }
  destruct a1 as [c1|]; [|contradiction].
  assert (D1 : derived c0 c1) by apply S2.
  unfold bind at 1. unfold set_local at 1. cbn [final_clip].
  unfold bind at 1. unfold get_local at 1. cbn [added_audio_clip].
  unfold bind at 1. unfold duration_of at 1. unfold ret at 1.
  unfold bind at 1. unfold gt_duration at 1.
  (* what is left once the narration [narr] is settled *)
  assert (Tail : forall narr wc,
    w_log wc = w_log w1 -> derived c0 narr ->
    narration_like c0 av (v_duration vc) narr ->
    match merge_compose env vc o' merged tmp (mkLocals (Some narr) None, wc) with
    | (r, (l, w2)) =>
      exists narr,
        added_audio_clip l = Some narr /\ derived c0 narr /\
        match final_clip l with
        | None => w_log w2 = w_log w1 /\ exists e, r = Raise e
        | Some fc =>
            merged_clip_like vc c0 vv av narr fc /\
            w_log w2 = w_log w1 ++ [EvWriteVideofile fc merged libx264 aac tmp] /\
            r = match lib_raises env (CallWriteVideofile (v_oid fc) merged) with
                | Some e => Raise e
                | None => Ok merged
                end
        end
    end).
  { intros narr wc Hwc Hder Hnarr.
    pose proof (merge_compose_spec env vc o' merged tmp narr wc) as H.
    destruct (merge_compose env vc o' merged tmp _) as [r [l w2]].
    destruct H as [Ha H]. exists narr. split; [exact Ha|split; [exact Hder|]].
    destruct (final_clip l) as [fc|].
    - destruct H as [Hr [Hd [Hfa [Hlog Hres]]]].
      split; [|split; [rewrite Hlog, Hwc; reflexivity|exact Hres]].
      split; [exact Hr|split; [exact Hd|split; [exact Hnarr|]]].
      unfold final_audio_like. unfold scaled_like in S1.
      destruct (v_audio vc) as [o|]; destruct o' as [o1|]; try contradiction.
      + destruct Hfa as [mix Hmix]. exists o1, mix. split; [exact S1|exact Hmix].
      + exact Hfa.
    - destruct H as [Hlog Hres]. split; [congruence|exact Hres]. }
  destruct (a_duration c1) as [d1|] eqn:Ed1.
  2:{ exists c1. cbn [added_audio_clip final_clip].
      split; [reflexivity|split; [exact D1|]].
      split; [congruence|now exists TypeError]. }
  destruct (v_duration vc) as [dv|] eqn:Edv.
  2:{ exists c1. cbn [added_audio_clip final_clip].
      split; [reflexivity|split; [exact D1|]].
      split; [congruence|now exists TypeError]. }
  unfold ret at 1.
  destruct (PrimFloat.ltb dv d1) eqn:Elt.
  - unfold bind at 1. unfold bind at 1. unfold lift at 1.
    pose proof (subclip_spec env c1 dv wb) as [L3 S3].
    destruct (_subclip env (Some c1) dv wb) as [[a2|e] wc];
      cbn [fst snd] in L3, S3.
    2:{ exists c1. cbn [added_audio_clip final_clip].
        split; [reflexivity|split; [exact D1|]].
        split; [congruence|now exists e]. }
    destruct a2 as [c2|]; [|contradiction].
    unfold set_local at 1. cbn [final_clip].
    apply Tail; [congruence|apply (derived_trans D1), S3|].
    exists c1. split; [exact S2|]. rewrite Ed1, Elt. exact S3.
  - unfold bind at 1. unfold ret at 1.
    apply Tail; [congruence|exact D1|].
    exists c1. split; [exact S2|]. rewrite Ed1, Elt. reflexivity.
Qed.

(** ** Releasing the clips *)

(** The [finally] never raises, and calls [close()] on the narration
    variable, on the video clip, and on [final_clip] when it is bound. *)
Lemma merge_finally_run env vc l w :
  exists w',
    merge_finally env vc (l, w) = (Ok tt, (l, w')) /\
    w_log w' = w_log w ++ merge_closes vc l.
Proof.
  unfold merge_finally, merge_closes, close_audio, close_video. unfold_m.
  destruct l as [[c|] [fc|]]; cbn [added_audio_clip final_clip];
    try destruct (a_reader c) as [h|];
    repeat first
      [ progress cbn [added_audio_clip final_clip w_log w_next]
      | match goal with
        | |- context [lib_raises env ?c] => destruct (lib_raises env c)
        end ];
    eexists; (split; [reflexivity|]); cbn [w_log];
    rewrite <- ?app_assoc; cbn [app]; rewrite ?app_nil_r; reflexivity.
Qed.

Lemma all_released_no_open X rest :
  forallb (fun ev => negb (is_open ev)) X = true ->
  all_released (X ++ rest) = all_released rest.
Proof.
  induction X as [|ev X IH]; [reflexivity|]. cbn [forallb app all_released].
  intros H. apply andb_prop in H. destruct H as [Hev HX].
  rewrite (IH HX). destruct ev; try discriminate; reflexivity.
Qed.

Lemma existsb_close_app h X rest :
  existsb (is_close h) (X ++ EvClose h (Some h) :: rest) = true.
Proof.
  rewrite existsb_app. cbn [existsb is_close]. rewrite Nat.eqb_refl.
  apply orb_true_r.
Qed.

Lemma save_frames_are_not_opens X :
  forallb is_save_frame X = true ->
  forallb (fun ev => negb (is_open ev)) X = true.
Proof.
  induction X as [|ev X IH]; [reflexivity|]. cbn [forallb].
  intros H. apply andb_prop in H. destruct H as [Hev HX].
  rewrite (IH HX). destruct ev; try discriminate; reflexivity.
Qed.

Lemma backend_calls_are_not_opens X :
  forallb is_backend_call X = true ->
  forallb (fun ev => negb (is_open ev)) X = true.
Proof.
  induction X as [|ev X IH]; [reflexivity|]. cbn [forallb].
  intros H. apply andb_prop in H. destruct H as [Hev HX].
  rewrite (IH HX). destruct ev; try discriminate; reflexivity.
Qed.

Lemma sample_frames_log env video temp_dir N w :
  exists X,
    snd (sample_frames env video temp_dir N w) =
      mkWorld (w_log w ++ X) (w_next w) /\
    forallb is_save_frame X = true.
Proof.
  unfold sample_frames.
  destruct (PrimFloat.leb _ 0).
  - exists []. cbn. rewrite app_nil_r. now destruct w.
  - apply save_frames_log.
Qed.

(** A body protected by the [finally] of [merge_video_with_audio]: the
    outcome is the body's, and the closes follow what the body logged. *)
Lemma merge_protected_run env vc A (body : F A) init w1 :
  match body (init, w1) with
  | (r, (l, w2)) =>
      exists w3,
        with_locals init (try_finally body (merge_finally env vc)) w1 = (r, w3) /\
        w_log w3 = w_log w2 ++ merge_closes vc l
  end.
Proof.
  unfold with_locals, try_finally.
  destruct (body (init, w1)) as [r [l w2]].
  destruct (merge_finally_run env vc l w2) as [w3 [E L]].
  rewrite E. exists w3. split; [reflexivity|exact L].
Qed.

(** Whether [close()] fails or not changes nothing before the [finally]. *)
Lemma merge_try_close_errors f env :
  merge_try (with_close_errors f env) = merge_try env.
Proof. reflexivity. Qed.

Lemma VideoFileClip_close_errors f env :
  VideoFileClip (with_close_errors f env) = VideoFileClip env.
Proof. reflexivity. Qed.

Lemma AudioFileClip_close_errors f env :
  AudioFileClip (with_close_errors f env) = AudioFileClip env.
Proof. reflexivity. Qed.

Lemma merge_video_with_audio_eq env vp ap mp vv av :
  merge_video_with_audio env vp ap mp vv av =
  bind (ensure_output_dir env mp) (fun _ =>
  bind (VideoFileClip env vp) (fun video_clip =>
  bind (AudioFileClip env ap) (fun added =>
    with_locals (mkLocals (Some added) None)
      (try_finally
         (merge_try env video_clip mp (tmp_audiofile env) vv av)
         (merge_finally env video_clip))))).
Proof. reflexivity. Qed.

Lemma ensure_output_dir_run env mp w :
  exists pre,
    snd (ensure_output_dir env mp w) = mkWorld (w_log w ++ pre) (w_next w) /\
    forallb (fun ev => negb (is_open ev)) pre = true.
Proof.
  unfold ensure_output_dir.
  destruct (truthy_str _ && negb _).
  - unfold_m. destruct (lib_raises env _); eexists [_]; split; reflexivity.
  - exists []. cbn. rewrite app_nil_r. now destruct w.
Qed.

(** In [merge_video_with_audio], failures of [close()] are swallowed:
    they do not change what the call returns or raises. *)
Lemma merge_close_errors_swallowed f env vp ap mp vv av w :
  fst (merge_video_with_audio (with_close_errors f env) vp ap mp vv av w) =
  fst (merge_video_with_audio env vp ap mp vv av w).
Proof.
  rewrite !merge_video_with_audio_eq.
  rewrite merge_try_close_errors, VideoFileClip_close_errors,
    AudioFileClip_close_errors.
  change (ensure_output_dir (with_close_errors f env) mp)
    with (ensure_output_dir env mp).
  change (tmp_audiofile (with_close_errors f env)) with (tmp_audiofile env).
  unfold bind at 1 4.
  destruct (ensure_output_dir env mp w) as [[[]|e] w0]; [|reflexivity].
  unfold bind at 1 3.
  destruct (VideoFileClip env vp w0) as [[vc|e] w1]; [|reflexivity].
  unfold bind.
  destruct (AudioFileClip env ap w1) as [[c0|e] w2]; [|reflexivity].
  match goal with |- context [try_finally ?b (merge_finally env vc)] =>
    pose proof (merge_protected_run env vc b (mkLocals (Some c0) None) w2) as H1;
    pose proof (merge_protected_run (with_close_errors f env) vc b
                  (mkLocals (Some c0) None) w2) as H2;
    destruct (b (mkLocals (Some c0) None, w2)) as [r [l w3]]
  end.
  destruct H1 as [w4 [-> _]]. destruct H2 as [w5 [-> _]]. reflexivity.
Qed.

(** Once the video clip and the narration clip are open, every path of
    [merge_video_with_audio] closes both readers. *)
Lemma merge_releases env vp ap mp vv av w vf af :
  video_file env vp = Ok vf ->
  audio_file env ap = Ok af ->
  exists evs,
    w_log (snd (merge_video_with_audio env vp ap mp vv av w)) = w_log w ++ evs /\
    all_released evs = true.
Proof.
  intros Hvf Haf. rewrite merge_video_with_audio_eq.
  unfold bind at 1.
  destruct (ensure_output_dir_run env mp w) as [pre [Hpre Hno]].
  destruct (ensure_output_dir env mp w) as [[[]|e] w0]; cbn [snd] in Hpre; subst w0.
  2:{ exists pre. split; [reflexivity|].
      rewrite <- (app_nil_r pre). now rewrite all_released_no_open. }
  set (h := w_next w).
  assert (Hopen : exists vc w1,
            VideoFileClip env vp (mkWorld (w_log w ++ pre) h) = (Ok vc, w1) /\
            v_reader vc = h /\
            w_log w1 = (w_log w ++ pre) ++ [EvOpenVideo vp h] /\
            h < w_next w1).
  { unfold VideoFileClip. rewrite Hvf. unfold_m. cbn [w_log w_next].
    destruct (vf_audio vf) as [[da caps]|]; unfold_m; cbn [w_log w_next];
      do 2 eexists; (split; [reflexivity|]); cbn [v_reader w_log w_next];
      repeat split; lia. }
  destruct Hopen as [vc [w1 [E1 [Hr [L1 Hn]]]]].
  unfold bind at 1. rewrite E1.
  unfold bind at 1. unfold AudioFileClip. rewrite Haf.
  unfold bind, fresh, emit, ret. cbn [w_log w_next].
  set (hA := w_next w1).
  set (c0 := mkAudio hA (af_caps af) (af_duration af) [] (Some hA) []).
  set (w2 := mkWorld (w_log w1 ++ [EvOpenAudio ap hA]) (S hA)).
  match goal with |- context [merge_try env vc mp ?tmp vv av] =>
    pose proof (merge_try_spec env vc mp tmp vv av c0 w2) as Hbody;
    pose proof (merge_protected_run env vc (merge_try env vc mp tmp vv av)
                  (mkLocals (Some c0) None) w2) as Hrun;
    destruct (merge_try env vc mp tmp vv av (mkLocals (Some c0) None, w2))
      as [r [l w3]]
  end.
  destruct Hrun as [w4 [-> L4]]. cbn [snd].
  destruct Hbody as [narr [Ha [Hder Hfc]]].
  assert (Hrd : a_reader narr = Some hA) by (destruct Hder as [_ [-> _]]; reflexivity).
  unfold merge_closes in L4. rewrite Ha, Hrd in L4.
  destruct (final_clip l) as [fc|].
  - destruct Hfc as [[Hfr _] [L3 _]].
    eexists (pre ++ [EvOpenVideo vp h; EvOpenAudio ap hA] ++ _ :: _).
    split.
    + rewrite L4, L3. unfold w2. cbn [w_log]. rewrite L1.
      rewrite <- !app_assoc. cbn [app]. reflexivity.
    + rewrite all_released_no_open by exact Hno.
      cbn [app all_released existsb is_close]. rewrite Hfr, Hr, !Nat.eqb_refl.
      cbn. rewrite ?orb_true_r. reflexivity.
  - destruct Hfc as [L3 _].
    eexists (pre ++ [EvOpenVideo vp h; EvOpenAudio ap hA] ++ _).
    split.
    + rewrite L4, L3. unfold w2. cbn [w_log]. rewrite L1.
      rewrite <- !app_assoc. cbn [app]. reflexivity.
    + rewrite all_released_no_open by exact Hno.
      cbn [app all_released existsb is_close]. rewrite Hr, !Nat.eqb_refl.
      cbn. rewrite ?orb_true_r. reflexivity.
Qed.

(** Every path of [generate_video_description] closes the video it
    opened. *)
Lemma generate_video_description_releases env self vp instructions model N w :
  exists evs,
    w_log (snd (generate_video_description env self vp instructions model N w))
      = w_log w ++ evs /\
    all_released evs = true.
Proof.
  destruct (os_path_exists env vp) eqn:Hex.
  2:{ unfold generate_video_description. rewrite Hex. exists [].
      split; [cbn; now rewrite app_nil_r|reflexivity]. }
  destruct (video_file env vp) as [vf|e] eqn:Hvf.
  2:{ unfold generate_video_description, with_TemporaryDirectory, VideoFileClip.
      rewrite Hex, Hvf. unfold_m. cbn [negb w_log w_next snd].
      eexists [_; _]. split; [rewrite <- app_assoc; reflexivity|reflexivity]. }
  destruct (generate_video_description_run env self vp instructions model N w
              Hex Hvf) as [video [w1 [Hr [Ho [Hd [Hlog Hrun]]]]]].
  rewrite Hrun. clear Hrun. set (d := mkdtemp env (w_next w)) in *.
  set (h := S (w_next w)) in *.
  unfold bind, try_finally.
  destruct (sample_frames_log env video d N w1) as [X [HX HXs]].
  destruct (sample_frames env video d N w1) as [rs ws]. cbn [snd] in HX. subst ws.
  unfold close_video. unfold_m. rewrite Hr, Ho. cbn [w_log w_next].
  assert (Hrel : forall Z,
            forallb (fun ev => negb (is_open ev)) Z = true ->
            all_released
              ([EvMkdtemp d; EvOpenVideo vp h] ++ X ++ [EvClose h (Some h)] ++ Z) = true).
  { intros Z HZ. cbn [app all_released]. rewrite existsb_close_app.
    rewrite all_released_no_open by now apply save_frames_are_not_opens.
    cbn [app all_released andb].
    rewrite <- (app_nil_r Z). now rewrite all_released_no_open. }
  destruct (lib_raises env (CallClose h)) as [e|].
  - destruct rs; cbn [snd w_log]; exists ([EvMkdtemp d; EvOpenVideo vp h] ++ X ++ [EvClose h (Some h)] ++ [EvRmtree d]);
      (split; [rewrite Hlog, <- !app_assoc; reflexivity|now apply Hrel]).
  - destruct rs as [paths|e].
    + match goal with |- context [generate_image_description env self ?ps instructions model 1000 ?w2] =>
        destruct (generate_image_description_log env self ps instructions model 1000 w2)
          as [Y [HY HYs]];
        destruct (generate_image_description env self ps instructions model 1000 w2)
          as [r w3] end.
      cbn [snd] in HY. subst w3. cbn [snd w_log].
      exists ([EvMkdtemp d; EvOpenVideo vp h] ++ X ++ [EvClose h (Some h)] ++ (Y ++ [EvRmtree d])).
      split; [rewrite Hlog, <- !app_assoc; reflexivity|].
      apply Hrel. rewrite forallb_app.
      now rewrite (backend_calls_are_not_opens _ HYs).
    + cbn [snd w_log].
      exists ([EvMkdtemp d; EvOpenVideo vp h] ++ X ++ [EvClose h (Some h)] ++ [EvRmtree d]).
      split; [rewrite Hlog, <- !app_assoc; reflexivity|now apply Hrel].
Qed.

(** [merge_video_with_audio] once both clips are open: whatever the body
    of the [try] does, the [finally] calls [close()] on the narration
    clip (the clip the variable holds by then, on the reader of the
    narration file), on the video clip, and on the final clip when it was
    made, in this order, and nothing follows. *)
Lemma merge_release_calls env vp ap mp vv av w vf af :
  video_file env vp = Ok vf ->
  audio_file env ap = Ok af ->
  fst (ensure_output_dir env mp w) = Ok tt ->
  exists pre hA narration final,
    let hV := w_next w in
    (pre = [] \/ pre = [EvMakedirs (os_path_dirname (os_path_abspath env mp))]) /\
    hV < hA /\
    a_reader narration = Some hA /\
    (forall fc, final = Some fc -> v_reader fc = hV) /\
    w_log (snd (merge_video_with_audio env vp ap mp vv av w)) =
      w_log w ++ pre ++ [EvOpenVideo vp hV; EvOpenAudio ap hA]
        ++ write_call final mp (tmp_audiofile env)
        ++ release_calls narration (opened_video vf hV) final.
Proof.
  intros Hvf Haf Hdir. rewrite merge_video_with_audio_eq.
  unfold bind at 1.
  assert (Hpre : exists pre,
            ensure_output_dir env mp w =
              (Ok tt, mkWorld (w_log w ++ pre) (w_next w)) /\
            (pre = [] \/
             pre = [EvMakedirs (os_path_dirname (os_path_abspath env mp))])).
  { revert Hdir. unfold ensure_output_dir.
    destruct (truthy_str _ && negb _).
    - unfold_m. destruct (lib_raises env _); [discriminate|].
      intros _. eexists. split; [reflexivity|now right].
    - intros _. exists []. split; [|now left].
      unfold ret. rewrite app_nil_r. now destruct w. }
  destruct Hpre as [pre [Epre Hpre]]. rewrite Epre.
  set (h := w_next w).
  assert (Hopen : exists w1,
            VideoFileClip env vp (mkWorld (w_log w ++ pre) h) =
              (Ok (opened_video vf h), w1) /\
            w_log w1 = (w_log w ++ pre) ++ [EvOpenVideo vp h] /\
            h < w_next w1).
  { unfold VideoFileClip, opened_video. rewrite Hvf. unfold_m. cbn [w_log w_next].
    destruct (vf_audio vf) as [[da caps]|]; unfold_m; cbn [w_log w_next];
      eexists; (split; [reflexivity|]); cbn [w_log w_next]; split;
      [reflexivity|lia|reflexivity|lia]. }
  destruct Hopen as [w1 [E1 [L1 Hn]]].
  unfold bind at 1. rewrite E1.
  unfold bind at 1. unfold AudioFileClip. rewrite Haf.
  unfold bind, fresh, emit, ret. cbn [w_log w_next].
  set (hA := w_next w1).
  set (c0 := mkAudio hA (af_caps af) (af_duration af) [] (Some hA) []).
  set (w2 := mkWorld (w_log w1 ++ [EvOpenAudio ap hA]) (S hA)).
  set (vc := opened_video vf h).
  match goal with |- context [merge_try env vc mp ?tmp vv av] =>
    pose proof (merge_try_spec env vc mp tmp vv av c0 w2) as Hbody;
    pose proof (merge_protected_run env vc (merge_try env vc mp tmp vv av)
                  (mkLocals (Some c0) None) w2) as Hrun;
    destruct (merge_try env vc mp tmp vv av (mkLocals (Some c0) None, w2))
      as [r [l w3]]
  end.
  destruct Hrun as [w4 [-> L4]]. cbn [snd].
  destruct Hbody as [narr [Ha [Hder Hfc]]].
  assert (Hrd : a_reader narr = Some hA) by (destruct Hder as [_ [-> _]]; reflexivity).
  exists pre, hA, narr, (final_clip l). cbn zeta.
  split; [exact Hpre|]. split; [exact Hn|]. split; [exact Hrd|].
  unfold merge_closes in L4. rewrite Ha in L4.
  unfold release_calls, write_call.
  destruct (final_clip l) as [fc|].
  - destruct Hfc as [[Hfr _] [L3 _]]. split.
    + intros fc' H. injection H as <-. exact Hfr.
    + rewrite L4, L3. unfold w2. cbn [w_log]. rewrite L1, <- !app_assoc.
      reflexivity.
  - destruct Hfc as [L3 _]. split; [discriminate|].
    rewrite L4, L3. unfold w2. cbn [w_log]. rewrite L1, <- !app_assoc.
    reflexivity.
Qed.

(** In [generate_video_description] a failure of [video.close()] is not
    swallowed: it is what the call raises, whatever the sampling did. *)
Lemma generate_video_description_close_error env self vp instructions model
    N w vf e :
  os_path_exists env vp = true ->
  video_file env vp = Ok vf ->
  lib_raises env (CallClose (S (w_next w))) = Some e ->
  fst (generate_video_description env self vp instructions model N w) = Raise e.
Proof.
  intros Hex Hvf Hc.
  destruct (generate_video_description_run env self vp instructions model N w
              Hex Hvf) as [video [w1 [Hr [Ho [Hd [Hlog Hrun]]]]]].
  rewrite Hrun. unfold bind, try_finally.
  destruct (sample_frames env video _ N w1) as [rs ws].
  unfold close_video. unfold_m. rewrite Ho, Hc. reflexivity.
Qed.

(** C3, as the code has it.
    - [generate_video_description]: on every path the video it opened is
      closed; a failure of that close is not swallowed, it is what the
      call raises.
    - [merge_video_with_audio]: once the video clip and the narration clip
      are both open, every path ends with the [close()] calls of the
      [finally], in this order and with nothing after them: on the
      narration clip, on the video clip, and on the final clip when it
      was made (that is, when [write_videofile] was called on it); so
      both readers are released.  Failures of these closes are
      swallowed: they never change what the call returns or raises. *)
Theorem media_handles_released env w :
  (forall self vp instructions model N,
     exists evs,
       w_log (snd (generate_video_description env self vp instructions model N w))
         = w_log w ++ evs /\
       all_released evs = true) /\
  (forall self vp instructions model N vf e,
     os_path_exists env vp = true ->
     video_file env vp = Ok vf ->
     lib_raises env (CallClose (S (w_next w))) = Some e ->
     fst (generate_video_description env self vp instructions model N w)
       = Raise e) /\
  (forall vp ap mp vv av vf af,
     video_file env vp = Ok vf ->
     audio_file env ap = Ok af ->
     exists evs,
       w_log (snd (merge_video_with_audio env vp ap mp vv av w)) = w_log w ++ evs /\
       all_released evs = true) /\
  (forall vp ap mp vv av vf af,
     video_file env vp = Ok vf ->
     audio_file env ap = Ok af ->
     fst (ensure_output_dir env mp w) = Ok tt ->
     exists pre hA narration final,
       let hV := w_next w in
       (pre = [] \/
        pre = [EvMakedirs (os_path_dirname (os_path_abspath env mp))]) /\
       hV < hA /\
       a_reader narration = Some hA /\
       (forall fc, final = Some fc -> v_reader fc = hV) /\
       w_log (snd (merge_video_with_audio env vp ap mp vv av w)) =
         w_log w ++ pre ++ [EvOpenVideo vp hV; EvOpenAudio ap hA]
           ++ write_call final mp (tmp_audiofile env)
           ++ release_calls narration (opened_video vf hV) final) /\
  (forall vp ap mp vv av f,
     fst (merge_video_with_audio (with_close_errors f env) vp ap mp vv av w) =
     fst (merge_video_with_audio env vp ap mp vv av w)).
Proof.
  split; [|split; [|split; [|split]]]; intros.
  - apply generate_video_description_releases.
  - eapply generate_video_description_close_error; eassumption.
  - eapply merge_releases; eassumption.
  - eapply merge_release_calls; eassumption.
  - apply merge_close_errors_swallowed.
Qed.

Lemma media_handles_released_witness :
  let run := merge_video_with_audio Demo.env Demo.video_path Demo.audio_path
               Demo.merged_path 1%float 0.5%float Demo.w0 in
  (exists evs, w_log (snd run) = [] ++ evs /\ all_released evs = true) /\
  (exists pre hA narration final,
     let hV := w_next Demo.w0 in
     (pre = [] \/
      pre = [EvMakedirs (os_path_dirname
                           (os_path_abspath Demo.env Demo.merged_path))]) /\
     hV < hA /\
     a_reader narration = Some hA /\
     (forall fc, final = Some fc -> v_reader fc = hV) /\
     w_log (snd run) =
       w_log Demo.w0 ++ pre
         ++ [EvOpenVideo Demo.video_path hV; EvOpenAudio Demo.audio_path hA]
         ++ write_call final Demo.merged_path (tmp_audiofile Demo.env)
         ++ release_calls narration (opened_video Demo.video60 hV) final).
Proof.
  intros run.
  destruct (media_handles_released Demo.env Demo.w0) as [_ [_ [H [H' _]]]].
  split.
  - exact (H Demo.video_path Demo.audio_path Demo.merged_path 1%float 0.5%float
             Demo.video60 (mkAudioFile (Some 75.5%float) Demo.caps_v2)
             eq_refl eq_refl).
  - exact (H' Demo.video_path Demo.audio_path Demo.merged_path 1%float
             0.5%float Demo.video60 (mkAudioFile (Some 75.5%float) Demo.caps_v2)
             eq_refl eq_refl eq_refl).
Defined.

(** On the example merge the narration is scaled, then cut: the clip closed
    first is the one the variable holds by then (object 4, on the reader
    2 of the narration file), then the video (object 0), then the final
    clip (object 6, on the video's reader 0).  When the merge fails before
    the final clip is made (here the video reports no duration), only the
    first two calls are made. *)
Example release_calls_on_examples :
  skipn 3 (w_log (snd (merge_video_with_audio Demo.env Demo.video_path
                         Demo.audio_path Demo.merged_path 1%float 0.5%float
                         Demo.w0))) =
    [EvClose 4 (Some 2); EvClose 0 (Some 0); EvClose 6 (Some 0)] /\
  w_log (snd (merge_video_with_audio
                (Demo.with_video (Ok (mkVideoFile None None Demo.vcaps_v2))
                   Demo.env)
                Demo.video_path Demo.audio_path Demo.merged_path 1%float
                0.5%float Demo.w0)) =
    [EvOpenVideo Demo.video_path 0; EvOpenAudio Demo.audio_path 1;
     EvClose 2 (Some 1); EvClose 0 (Some 0)].
Proof. split; reflexivity. Qed.

(** In [generate_video_description] (C3) the failure of
    [video.close()] is not swallowed.  On the zero-duration video the
    primary error is the input error; when the close fails too, the call
    raises the close failure instead. *)
Lemma close_failure_replaces_primary_error :
  fst (generate_video_description env_zero_duration Demo.jarvis Demo.video_path
         Demo.instructions gpt_4o_mini 10 Demo.w0) = Raise duration_error /\
  fst (generate_video_description env_close_fails Demo.jarvis Demo.video_path
         Demo.instructions gpt_4o_mini 10 Demo.w0) = Raise (LibraryError 7).
Proof. split; reflexivity. Qed.

(** The two clips are opened before the [try]: when [AudioFileClip]
    raises, the video clip, opened one line earlier, is never closed. *)
Lemma video_left_open_when_narration_fails :
  merge_video_with_audio env_narration_unreadable Demo.video_path
    Demo.audio_path Demo.merged_path 1%float 1%float Demo.w0 =
  (Raise (LibraryError 2), mkWorld [EvOpenVideo Demo.video_path 0] 2) /\
  all_released [EvOpenVideo Demo.video_path 0] = false.
Proof. split; reflexivity. Qed.

(** ** The audio of the merged file *)

(** A successful merge: both clips were opened, the body of the [try]
    returned, and the log ends with the closes. *)
Lemma merge_ok_run env vp ap mp vv av w vf af out w' :
  video_file env vp = Ok vf ->
  audio_file env ap = Ok af ->
  merge_video_with_audio env vp ap mp vv av w = (Ok out, w') ->
  exists pre hA l w2 w3,
    let hV := w_next w in
    w_log w2 = w_log w ++ pre ++ [EvOpenVideo vp hV; EvOpenAudio ap hA] /\
    merge_try env (opened_video vf hV) mp (tmp_audiofile env) vv av
      (mkLocals (Some (opened_narration af hA)) None, w2) = (Ok out, (l, w3)) /\
    w_log w' = w_log w3 ++ merge_closes (opened_video vf hV) l.
Proof.
  intros Hvf Haf. rewrite merge_video_with_audio_eq.
  unfold bind at 1.
  destruct (ensure_output_dir_run env mp w) as [pre [Hpre Hno]].
  destruct (ensure_output_dir env mp w) as [[[]|e] w0]; cbn [snd] in Hpre; subst w0;
    [|discriminate].
  set (h := w_next w).
  assert (Hopen : exists w1,
            VideoFileClip env vp (mkWorld (w_log w ++ pre) h) =
              (Ok (opened_video vf h), w1) /\
            w_log w1 = (w_log w ++ pre) ++ [EvOpenVideo vp h]).
  { unfold VideoFileClip, opened_video. rewrite Hvf. unfold_m. cbn [w_log w_next].
    destruct (vf_audio vf) as [[da caps]|]; unfold_m; cbn [w_log w_next];
      eexists; (split; [reflexivity|]); reflexivity. }
  destruct Hopen as [w1 [E1 L1]].
  unfold bind at 1. rewrite E1.
  unfold bind at 1. unfold AudioFileClip. rewrite Haf.
  unfold bind, fresh, emit, ret. cbn [w_log w_next].
  set (hA := w_next w1).
  set (w2 := mkWorld (w_log w1 ++ [EvOpenAudio ap hA]) (S hA)).
  fold (opened_narration af hA).
  pose proof (merge_protected_run env (opened_video vf h)
                (merge_try env (opened_video vf h) mp (tmp_audiofile env) vv av)
                (mkLocals (Some (opened_narration af hA)) None) w2) as Hrun.
  destruct (merge_try env (opened_video vf h) mp (tmp_audiofile env) vv av
              (mkLocals (Some (opened_narration af hA)) None, w2))
    as [r [l w3]] eqn:Ebody.
  destruct Hrun as [w4 [-> L4]]. intros H. injection H as -> ->.
  exists pre, hA, l, w2, w3. cbn zeta. split; [|split; [exact Ebody|exact L4]].
  unfold w2. cbn [w_log]. rewrite L1, <- !app_assoc. reflexivity.
Qed.

(** The merged clip of a successful run, and the narration in it. *)
Lemma merge_ok_clip env vp ap mp vv av w vf af out w' :
  video_file env vp = Ok vf ->
  audio_file env ap = Ok af ->
  merge_video_with_audio env vp ap mp vv av w = (Ok out, w') ->
  exists fc narr hA,
    out = mp /\
    In (EvWriteVideofile fc mp libx264 aac (tmp_audiofile env)) (w_log w') /\
    In (EvOpenVideo vp (w_next w)) (w_log w') /\
    In (EvOpenAudio ap hA) (w_log w') /\
    v_duration fc = vf_duration vf /\
    a_reader narr = Some hA /\ a_tracks narr = [] /\
    a_fx narr = narration_fx af av (vf_duration vf) /\
    a_duration narr = narration_duration af (vf_duration vf) /\
    final_audio_like (opened_video vf (w_next w)) vv narr (v_audio fc).
Proof.
  intros Hvf Haf Hrun.
  destruct (@merge_ok_run env vp ap mp vv av w vf af out w' Hvf Haf Hrun)
    as [pre [hA [l [w2 [w3 [L2 [Ebody L']]]]]]].
  pose proof (merge_try_spec env (opened_video vf (w_next w)) mp
                (tmp_audiofile env) vv av (opened_narration af hA) w2) as S.
  rewrite Ebody in S. destruct S as [narr [Ha [Hder Hfc]]].
  destruct (final_clip l) as [fc|].
  2:{ destruct Hfc as [_ [e He]]. discriminate He. }
  destruct Hfc as [[Hfr [Hfd [Hn Hfa]]] [L3 Hres]].
  exists fc, narr, hA.
  assert (Hout : out = mp).
  { destruct (lib_raises env _); [discriminate|]. now injection Hres. }
  split; [exact Hout|].
  split.
  { rewrite L', L3. apply in_or_app. left. apply in_or_app. right. now left. }
  split.
  { rewrite L', L3, L2. rewrite !in_app_iff. left. left. right. right. now left. }
  split.
  { rewrite L', L3, L2. rewrite !in_app_iff. left. left. right. right.
    right. now left. }
  split; [exact Hfd|].
  destruct Hder as [_ [Hrd Htr]].
  split; [exact Hrd|]. split; [exact Htr|].
  split; [|split; [|exact Hfa]].
  - destruct Hn as [c1 [[_ [Hd1 Hf1]] Hcut]].
    unfold narration_fx. cbn [a_duration opened_narration] in Hd1.
    cbn [a_fx a_caps opened_narration app] in Hf1.
    rewrite Hd1 in Hcut. cbn [v_duration opened_video] in Hcut.
    destruct (af_duration af) as [dn|]; [|contradiction].
    destruct (vf_duration vf) as [dv|]; [|contradiction].
    destruct (PrimFloat.ltb dv dn).
    + destruct Hcut as [_ [_ Hf]]. rewrite Hf, Hf1, Hd1. reflexivity.
    + subst narr. rewrite Hf1, app_nil_r. reflexivity.
  - destruct Hn as [c1 [[_ [Hd1 Hf1]] Hcut]].
    unfold narration_duration. cbn [a_duration opened_narration] in Hd1.
    rewrite Hd1 in Hcut. cbn [v_duration opened_video] in Hcut.
    destruct (af_duration af) as [dn|]; [|contradiction].
    destruct (vf_duration vf) as [dv|]; [|contradiction].
    destruct (PrimFloat.ltb dv dn).
    + destruct Hcut as [_ [Hd _]]. rewrite Hd, Hd1. reflexivity.
    + subst narr. exact Hd1.
Qed.

(** C6: in the output of a successful merge, when the video has no audio
    track the audio attached is the narration clip itself: no mix, just
    the narration file with its volume scaled and, if longer than the
    video, cut; when the video has an audio track, the audio attached is
    the mix of exactly two tracks, the video's own track with its volume
    scaled and that narration clip. *)
Theorem merged_audio_is_narration_or_mix env vp ap mp vv av w vf af out w' :
  video_file env vp = Ok vf ->
  audio_file env ap = Ok af ->
  merge_video_with_audio env vp ap mp vv av w = (Ok out, w') ->
  exists fc narr hA,
    In (EvWriteVideofile fc mp libx264 aac (tmp_audiofile env)) (w_log w') /\
    In (EvOpenAudio ap hA) (w_log w') /\
    a_reader narr = Some hA /\ a_tracks narr = [] /\
    a_fx narr = narration_fx af av (vf_duration vf) /\
    match vf_audio vf with
    | None => v_audio fc = Some narr
    | Some (da, caps) =>
        exists orig mix,
          v_audio fc = Some mix /\
          a_reader mix = None /\ a_tracks mix = [orig; narr] /\ a_fx mix = [] /\
          In (EvOpenVideo vp (w_next w)) (w_log w') /\
          a_reader orig = Some (w_next w) /\ a_tracks orig = [] /\
          a_fx orig = volume_fx caps vv
    end.
Proof.
  intros Hvf Haf Hrun.
  destruct (@merge_ok_clip env vp ap mp vv av w vf af out w' Hvf Haf Hrun)
    as [fc [narr [hA [_ [Hw [Hov [Hoa [_ [Hr [Ht [Hf [_ Hfa]]]]]]]]]]]].
  exists fc, narr, hA. repeat (split; [assumption|]).
  unfold final_audio_like, opened_video in Hfa. cbn [v_audio] in Hfa.
  destruct (vf_audio vf) as [[da caps]|]; [|exact Hfa].
  destruct Hfa as [o' [mix [Hs [Hm [Hmr [Hmt [Hmf _]]]]]]].
  exists o', mix. repeat (split; [assumption|]).
  destruct Hs as [[_ [Hor Hot]] [_ Hof]].
  cbn [a_reader a_tracks a_fx a_caps app] in Hor, Hot, Hof.
  repeat split; assumption.
Qed.

Lemma merged_audio_is_narration_or_mix_witness :
  let w' := snd (merge_video_with_audio Demo.env Demo.video_path Demo.audio_path
                   Demo.merged_path 1%float 0.5%float Demo.w0) in
  exists fc narr hA,
    In (EvWriteVideofile fc Demo.merged_path libx264 aac
          (tmp_audiofile Demo.env)) (w_log w') /\
    In (EvOpenAudio Demo.audio_path hA) (w_log w') /\
    a_reader narr = Some hA /\ a_tracks narr = [] /\
    a_fx narr = [FxVolume 0.5; FxSubclip 0 60]%float /\
    exists orig mix,
      v_audio fc = Some mix /\
      a_reader mix = None /\ a_tracks mix = [orig; narr] /\ a_fx mix = [] /\
      In (EvOpenVideo Demo.video_path 0) (w_log w') /\
      a_reader orig = Some 0 /\ a_tracks orig = [] /\ a_fx orig = [].
Proof.
  intros w'.
  exact (@merged_audio_is_narration_or_mix Demo.env Demo.video_path
           Demo.audio_path Demo.merged_path 1%float 0.5%float Demo.w0
           Demo.video60 (mkAudioFile (Some 75.5%float) Demo.caps_v2)
           Demo.merged_path w' eq_refl eq_refl eq_refl).
Defined.

(** C5: when the narration is longer than the video, the narration
    attached to the output is the narration cut at the video's duration:
    its last effect is the cut from 0 to that duration and its duration is
    the video's; the audio of the output (the narration alone, or its mix
    with the video's own track) has the video's duration, and the output's
    own duration is the video's, unchanged. *)
Theorem long_narration_is_trimmed env vp ap mp vv av w vf af out w' dn dv :
  video_file env vp = Ok vf ->
  audio_file env ap = Ok af ->
  af_duration af = Some dn ->
  vf_duration vf = Some dv ->
  PrimFloat.ltb dv dn = true ->
  PrimFloat.leb 0 dv = true ->
  original_not_longer vf dv ->
  merge_video_with_audio env vp ap mp vv av w = (Ok out, w') ->
  exists fc narr audio,
    In (EvWriteVideofile fc mp libx264 aac (tmp_audiofile env)) (w_log w') /\
    v_duration fc = Some dv /\
    v_audio fc = Some audio /\
    a_duration audio = Some dv /\
    (audio = narr \/ exists orig, a_tracks audio = [orig; narr]) /\
    a_duration narr = Some dv /\
    a_fx narr = volume_fx (af_caps af) av ++ [FxSubclip 0 dv].
Proof.
  intros Hvf Haf Hdn Hdv Hlt Hpos Horig Hrun.
  destruct (@merge_ok_clip env vp ap mp vv av w vf af out w' Hvf Haf Hrun)
    as [fc [narr [hA [_ [Hw [_ [_ [Hfd [_ [_ [Hf [Hd Hfa]]]]]]]]]]]].
  unfold narration_fx in Hf. unfold narration_duration in Hd.
  rewrite Hdn, Hdv, Hlt in Hf, Hd. unfold trim_end in Hf, Hd.
  rewrite (@not_negative_not_below_zero dv Hpos) in Hf, Hd.
  rewrite FloatFacts.sub_zero in Hd.
  unfold final_audio_like, opened_video in Hfa. cbn [v_audio] in Hfa.
  unfold original_not_longer in Horig.
  destruct (vf_audio vf) as [[da caps]|].
  - destruct Hfa as [o' [mix [Hs [Hm [_ [Hmt [_ Hmd]]]]]]].
    exists fc, narr, mix.
    split; [exact Hw|]. split; [congruence|]. split; [exact Hm|].
    split; [|split; [right; now exists o'|split; [exact Hd|exact Hf]]].
    destruct Hs as [_ [Hod _]]. cbn [a_duration] in Hod.
    rewrite Hmd. unfold mix_duration. cbn [known_durations]. rewrite Hod, Hd.
    destruct Horig as [->|[d [-> Hlt']]]; cbn [py_max].
    + now destruct (PrimFloat.ltb dv dv).
    + now rewrite Hlt'.
  - exists fc, narr, narr.
    split; [exact Hw|]. split; [congruence|]. split; [exact Hfa|].
    split; [exact Hd|]. split; [now left|]. split; [exact Hd|exact Hf].
Qed.

Lemma long_narration_is_trimmed_witness :
  let w' := snd (merge_video_with_audio Demo.env Demo.video_path Demo.audio_path
                   Demo.merged_path 1%float 0.5%float Demo.w0) in
  PrimFloat.ltb 60 75.5 = true /\
  exists fc narr audio,
    In (EvWriteVideofile fc Demo.merged_path libx264 aac
          (tmp_audiofile Demo.env)) (w_log w') /\
    v_duration fc = Some 60%float /\
    v_audio fc = Some audio /\
    a_duration audio = Some 60%float /\
    (audio = narr \/ exists orig, a_tracks audio = [orig; narr]) /\
    a_duration narr = Some 60%float /\
    a_fx narr = [FxVolume 0.5; FxSubclip 0 60]%float.
Proof.
  intros w'. split; [reflexivity|].
  exact (@long_narration_is_trimmed Demo.env Demo.video_path
           Demo.audio_path Demo.merged_path 1%float 0.5%float Demo.w0
           Demo.video60 (mkAudioFile (Some 75.5%float) Demo.caps_v2)
           Demo.merged_path w' 75.5%float 60%float
           eq_refl eq_refl eq_refl eq_refl eq_refl eq_refl
           (or_introl eq_refl) eq_refl).
Defined.

(** ** The narration budget (generate_voiceover_text) *)

Lemma generate_image_description_ok env self image_paths instructions model
    max_tokens w out w' :
  generate_image_description env self image_paths instructions model
    max_tokens w = (Ok out, w') ->
  exists urls content,
    let req := vision_request model instructions max_tokens urls in
    w_log w' = w_log w ++ [EvChatCompletion req] /\
    chat_completions_create env req = Ok content /\
    out = strip_fences (content_or_empty content).
Proof.
  unfold generate_image_description. unfold bind at 1.
  match goal with |- context [image_urls_of env ?ps w] =>
    pose proof (image_urls_of_world env ps w) as Hw;
    destruct (image_urls_of env ps w) as [[urls|e] w1] end;
    simpl in Hw; subst w1; [|discriminate].
  unfold bind at 1. rewrite chat_create_run.
  fold (vision_request model instructions max_tokens urls).
  destruct (chat_completions_create env _) as [c|e] eqn:E; [|discriminate].
  unfold ret. intros H. injection H as <- <-.
  exists urls, c. cbn zeta. repeat split. exact E.
Qed.

Lemma generate_video_description_ok env self vp instructions model N w out w' :
  generate_video_description env self vp instructions model N w = (Ok out, w') ->
  exists urls content,
    let req := vision_request model instructions 1000 urls in
    In (EvChatCompletion req) (w_log w') /\
    chat_completions_create env req = Ok content /\
    out = strip_fences (content_or_empty content).
Proof.
  destruct (os_path_exists env vp) eqn:Hex.
  2:{ unfold generate_video_description. rewrite Hex. discriminate. }
  destruct (video_file env vp) as [vf|e] eqn:Hvf.
  2:{ unfold generate_video_description, with_TemporaryDirectory, VideoFileClip.
      rewrite Hex, Hvf. unfold_m. discriminate. }
  destruct (generate_video_description_run env self vp instructions model N w
              Hex Hvf) as [video [w1 [_ [_ [_ [_ Hrun]]]]]].
  rewrite Hrun. clear Hrun. unfold bind.
  destruct (try_finally _ _ w1) as [[paths|e] w2]; [|discriminate].
  destruct (generate_image_description env self (StrList paths) instructions
              model 1000 w2) as [r w3] eqn:E.
  intros H. injection H as -> <-.
  apply generate_image_description_ok in E.
  destruct E as [urls [content [L [Hc Ho]]]].
  exists urls, content. cbn zeta. split; [|split; assumption].
  cbn [w_log]. rewrite L, !in_app_iff. left. right. now left.
Qed.

Lemma get_video_duration_ok env vp w D w1 :
  get_video_duration env vp w = (Ok D, w1) ->
  exists vf, video_file env vp = Ok vf /\ vf_duration vf = Some D.
Proof.
  unfold get_video_duration, VideoFileClip.
  destruct (video_file env vp) as [vf|e]; [|discriminate].
  intros H. exists vf. split; [reflexivity|].
  unfold close_video in H. revert H. unfold_m. cbn [w_log w_next].
  destruct (vf_audio vf) as [[da caps]|]; unfold_m; cbn [v_duration];
    destruct (vf_duration vf) as [d|];
    repeat match goal with
           | |- context [lib_raises env ?c] => destruct (lib_raises env c)
           end; intros H; try discriminate; now injection H as ->.
Qed.

(** C8: a successful [generate_voiceover_text] read the duration [D] of
    the video and sent one vision request whose text is the caller's
    instructions followed by the budget sentence for [(200 / 60) * D]
    words (printed without decimals) and by the no-hashtags/no-emoji
    sentence; for [D = 60] the budget printed is 200; what it returns is
    the answer to that request as [generate_video_description] returns it,
    whatever its length. *)
Theorem voiceover_text_budget env vp instructions w out w' :
  generate_voiceover_text env vp instructions w = (Ok out, w') ->
  exists vf D urls content,
    video_file env vp = Ok vf /\ vf_duration vf = Some D /\
    let nwords_max := (200 / 60 * D)%float in
    let req :=
      vision_request gpt_4o_mini
        (instructions ++ budget_sentence nwords_max ++ no_hashtags_sentence)
        1000 urls in
    In (EvChatCompletion req) (w_log w') /\
    chat_completions_create env req = Ok content /\
    out = strip_fences (content_or_empty content) /\
    (D = 60%float -> format_0f nwords_max = py "200").
Proof.
  unfold generate_voiceover_text. unfold bind at 1.
  destruct (get_video_duration env vp w) as [[D|e] w1] eqn:E1; [|discriminate].
  apply get_video_duration_ok in E1. destruct E1 as [vf [Hvf HD]].
  unfold bind at 1. destruct (_jarvis env w1) as [[jarvis|e] w2]; [|discriminate].
  unfold bind at 1.
  destruct (generate_video_description env jarvis vp _ gpt_4o_mini 10 w2)
    as [[text|e] w3] eqn:E2; [|discriminate].
  unfold ret. intros H. injection H as <- <-.
  apply generate_video_description_ok in E2.
  destruct E2 as [urls [content [Hin [Hc Ho]]]].
  exists vf, D, urls, content. split; [exact Hvf|split; [exact HD|]].
  cbn zeta. unfold instructions_modified in Hin, Hc.
  unfold budget_sentence, no_hashtags_sentence.
  rewrite <- !app_assoc in *.
  split; [exact Hin|split; [exact Hc|split; [exact Ho|]]].
  intros ->. reflexivity.
Qed.

Example budget_sentence_60s :
  budget_sentence (200 / 60 * 60)%float =
  [10%N] ++ py "Your voiceover text should be less than 200 words long. ".
Proof. reflexivity. Qed.

Lemma voiceover_text_budget_witness :
  let run := generate_voiceover_text Demo.env Demo.video_path
               Demo.instructions Demo.w0 in
  fst run = Ok (py "<p>A calm lake at dawn.</p>") /\
  exists vf D urls content,
    video_file Demo.env Demo.video_path = Ok vf /\ vf_duration vf = Some D /\
    let nwords_max := (200 / 60 * D)%float in
    let req :=
      vision_request gpt_4o_mini
        (Demo.instructions ++ budget_sentence nwords_max ++ no_hashtags_sentence)
        1000 urls in
    In (EvChatCompletion req) (w_log (snd run)) /\
    chat_completions_create Demo.env req = Ok content /\
    py "<p>A calm lake at dawn.</p>" = strip_fences (content_or_empty content) /\
    (D = 60%float -> format_0f nwords_max = py "200").
Proof.
  intros run. split; [reflexivity|].
  exact (@voiceover_text_budget Demo.env Demo.video_path Demo.instructions
           Demo.w0 (py "<p>A calm lake at dawn.</p>") (snd run) eq_refl).
Defined.

(** * Further properties *)

(** ** Text without fences is returned as it is *)

Lemma startswith_contains o old' c s' :
  N.eqb o c && startswith old' s' = true -> contains (o :: old') (c :: s').
Proof.
  intros H. apply andb_prop in H. destruct H as [Hc Hs].
  apply N.eqb_eq in Hc. subst c.
  exists [], (skipn (length old') s'). cbn [app].
  f_equal. now apply startswith_split.
Qed.

Lemma contains_cons sub c s : contains sub s -> contains sub (c :: s).
Proof. intros [pre [post ->]]. now exists (c :: pre), post. Qed.

(** A pattern that does not occur is not replaced. *)
Lemma replace_ne_absent o old' new s :
  ~ contains (o :: old') s -> replace_ne o old' new s = s.
Proof.
  induction s as [|c s' IH]; intros H; simp replace_ne; [reflexivity|].
  destruct (N.eqb o c && startswith old' s') eqn:E.
  - exfalso. apply H. now apply startswith_contains.
  - f_equal. apply IH. intros C. apply H. now apply contains_cons.
Qed.

Lemma strip_fences_absent s : ~ contains fence s -> strip_fences s = s.
Proof.
  intros H. unfold strip_fences.
  assert (E : replace fence_html [] s = s).
  { apply replace_ne_absent. intros C. apply H.
    change (contains (fence ++ py "html") s) in C.
    now apply contains_prefix in C. }
  rewrite E. apply replace_ne_absent. exact H.
Qed.

(** X1: when the backend's answer holds no "```", [generate_text] returns
    it unchanged, after exactly one request: the system instructions, then
    the user prompt. *)
Theorem generate_text_keeps_plain_text env self prompt instructions model
    output_type temperature w s :
  chat_completions_create env
    (text_request model instructions prompt output_type temperature) = Ok (Some s) ->
  ~ contains fence s ->
  generate_text env self prompt instructions model output_type temperature w =
  (Ok s,
   mkWorld (w_log w ++
            [EvChatCompletion
               (text_request model instructions prompt output_type temperature)])
           (w_next w)).
Proof.
  intros Hc Hs. unfold generate_text, bind. rewrite chat_create_run.
  fold (text_request model instructions prompt output_type temperature).
  rewrite Hc. unfold ret. cbn [content_or_empty].
  now rewrite strip_fences_absent.
Qed.

(** X2: stripping is idempotent: a text that went through [strip_fences]
    once is not changed by a second pass. *)
Theorem strip_fences_idempotent s :
  strip_fences (strip_fences s) = strip_fences s.
Proof.
  apply strip_fences_absent. apply (strip_fences_clean s).
Qed.

(** ** Chat and vision requests *)

Lemma image_urls_of_ok env ps :
  forall w urls w',
    image_urls_of env ps w = (Ok urls, w') ->
    exists b64s,
      Forall2 (fun p b => encode_image env p = Ok b) ps b64s /\
      urls = map data_uri b64s.
Proof.
  induction ps as [|p ps IH]; intros w urls w'; cbn [image_urls_of].
  - unfold ret. intros H. injection H as <- _. exists []. split; constructor.
  - unfold bind at 1. destruct (encode_image env p) as [b|e] eqn:Ep; [|discriminate].
    unfold bind at 1.
    destruct (image_urls_of env ps w) as [[us|e] w1] eqn:E; [|discriminate].
    unfold ret. intros H. injection H as <- _.
    destruct (IH _ _ _ E) as [bs [HF ->]].
    exists (b :: bs). split; [now constructor|reflexivity].
Qed.

(** X4: a successful [generate_image_description] encoded every path, in
    order, and sent exactly one request: the instructions as text part,
    then one image part per path, each the JPEG data URI of that path's
    encoding, in the order of the paths.  A single string counts as one
    path. *)
Theorem generate_image_description_attaches_all env self image_paths
    instructions model max_tokens w out w' :
  generate_image_description env self image_paths instructions model
    max_tokens w = (Ok out, w') ->
  exists b64s content,
    Forall2 (fun p b => encode_image env p = Ok b) (paths_of image_paths) b64s /\
    let req := vision_request model instructions max_tokens (map data_uri b64s) in
    w' = mkWorld (w_log w ++ [EvChatCompletion req]) (w_next w) /\
    chat_completions_create env req = Ok content /\
    out = strip_fences (content_or_empty content).
Proof.
  unfold generate_image_description. fold (paths_of image_paths).
  unfold bind at 1.
  pose proof (image_urls_of_world env (paths_of image_paths) w) as Hw.
  destruct (image_urls_of env (paths_of image_paths) w) as [[urls|e] w1] eqn:E;
    cbn [snd] in Hw; subst w1; [|discriminate].
  destruct (image_urls_of_ok _ _ _ E) as [b64s [HF ->]].
  unfold bind at 1. rewrite chat_create_run.
  fold (vision_request model instructions max_tokens (map data_uri b64s)).
  destruct (chat_completions_create env _) as [c|e] eqn:Ec; [|discriminate].
  unfold ret. intros H. injection H as <- <-.
  exists b64s, c. split; [exact HF|]. cbn zeta. repeat split. exact Ec.
Qed.

Lemma image_urls_of_fails env ps1 p ps2 e w :
  Forall (fun q => exists b, encode_image env q = Ok b) ps1 ->
  encode_image env p = Raise e ->
  image_urls_of env (ps1 ++ p :: ps2) w = (Raise e, w).
Proof.
  intros HF Hp. induction HF as [|q qs [b Hq] _ IH]; cbn [app image_urls_of].
  - unfold bind. now rewrite Hp.
  - unfold bind at 1. rewrite Hq. unfold bind at 1. now rewrite IH.
Qed.

(** X5: when an image cannot be encoded, [generate_image_description]
    raises the error of the first such image and sends nothing: the world
    is as before, whatever images follow. *)
Theorem generate_image_description_unreadable_image env self ps1 p ps2 e
    instructions model max_tokens w :
  Forall (fun q => exists b, encode_image env q = Ok b) ps1 ->
  encode_image env p = Raise e ->
  generate_image_description env self (StrList (ps1 ++ p :: ps2)) instructions
    model max_tokens w = (Raise e, w).
Proof.
  intros HF Hp. unfold generate_image_description. unfold bind at 1.
  now rewrite (@image_urls_of_fails env ps1 p ps2 e w HF Hp).
Qed.

(** ** The temporary directory of [generate_video_description] *)

Lemma forallb_weaken (P Q : event -> bool) X :
  (forall ev, P ev = true -> Q ev = true) ->
  forallb P X = true -> forallb Q X = true.
Proof.
  intros HPQ. induction X as [|ev X IH]; [reflexivity|]. cbn [forallb].
  intros H. apply andb_prop in H. destruct H as [Hev HX].
  now rewrite (HPQ _ Hev), (IH HX).
Qed.

(** X6: [generate_video_description] on a path that does not exist raises
    [FileNotFoundError] and touches nothing; on an existing path it makes
    exactly one temporary directory, first, and removes it, last, on every
    path, whatever fails in between. *)
Theorem generate_video_description_tempdir env self vp instructions model N w :
  (os_path_exists env vp = false ->
   generate_video_description env self vp instructions model N w =
     (Raise (FileNotFoundError (py "Video not found: " ++ vp)), w)) /\
  (os_path_exists env vp = true ->
   exists mid,
     w_log (snd (generate_video_description env self vp instructions model N w))
       = w_log w ++ EvMkdtemp (mkdtemp env (w_next w)) :: mid
                 ++ [EvRmtree (mkdtemp env (w_next w))] /\
     forallb (fun ev => negb (is_mkdtemp_or_rmtree ev)) mid = true).
Proof.
  split; intros Hex.
  - unfold generate_video_description. now rewrite Hex.
  - destruct (video_file env vp) as [vf|e] eqn:Hvf.
    2:{ unfold generate_video_description, with_TemporaryDirectory, VideoFileClip.
        rewrite Hex, Hvf. unfold_m. cbn [negb w_log w_next snd].
        exists []. split; [rewrite <- app_assoc; reflexivity|reflexivity]. }
    destruct (generate_video_description_run env self vp instructions model N w
                Hex Hvf) as [video [w1 [Hr [Ho [Hd [Hlog Hrun]]]]]].
    rewrite Hrun. clear Hrun. set (d := mkdtemp env (w_next w)) in *.
    set (h := S (w_next w)) in *.
    unfold bind, try_finally.
    destruct (sample_frames_log env video d N w1) as [X [HX HXs]].
    destruct (sample_frames env video d N w1) as [rs ws]. cbn [snd] in HX. subst ws.
    unfold close_video. unfold_m. rewrite Hr, Ho. cbn [w_log w_next].
    assert (HXn : forallb (fun ev => negb (is_mkdtemp_or_rmtree ev)) X = true).
    { revert HXs. apply forallb_weaken. now intros []. }
    destruct (lib_raises env (CallClose h)) as [e|].
    + destruct rs; cbn [snd w_log];
        exists ([EvOpenVideo vp h] ++ X ++ [EvClose h (Some h)]);
        (split; [rewrite Hlog, <- !app_assoc; reflexivity|]);
        rewrite !forallb_app, HXn; reflexivity.
    + destruct rs as [paths|e].
      * match goal with |- context [generate_image_description env self ?ps instructions model 1000 ?w2] =>
          destruct (generate_image_description_log env self ps instructions model 1000 w2)
            as [Y [HY HYs]];
          destruct (generate_image_description env self ps instructions model 1000 w2)
            as [r w3] end.
        cbn [snd] in HY. subst w3. cbn [snd w_log].
        exists ([EvOpenVideo vp h] ++ X ++ [EvClose h (Some h)] ++ Y).
        split; [rewrite Hlog, <- !app_assoc; reflexivity|].
        rewrite !forallb_app, HXn. cbn [forallb is_mkdtemp_or_rmtree negb andb].
        revert HYs. apply forallb_weaken. now intros [].
      * cbn [snd w_log]. exists ([EvOpenVideo vp h] ++ X ++ [EvClose h (Some h)]).
        split; [rewrite Hlog, <- !app_assoc; reflexivity|].
        rewrite !forallb_app, HXn. reflexivity.
Qed.

(** ** Frame files *)

Lemma py_String c s : py (String c s) = N_of_ascii c :: py s.
Proof. reflexivity. Qed.

Lemma py_app s1 s2 : py (s1 ++ s2)%string = py s1 ++ py s2.
Proof.
  induction s1 as [|c s1 IH]; [reflexivity|].
  cbn [String.append]. rewrite !py_String, IH. reflexivity.
Qed.

(** Reading the digits of a decimal numeral gives its value. *)
Lemma digits_of_uint d :
  forall acc,
    fold_left (fun acc c => 10 * acc + digit_value c)
      (py (NilEmpty.string_of_uint d)) acc = Nat.of_uint_acc d acc.
Proof.
  induction d as [|d IH|d IH|d IH|d IH|d IH|d IH|d IH|d IH|d IH|d IH];
    intros acc; cbn [NilEmpty.string_of_uint Nat.of_uint_acc];
    [reflexivity| ..];
    rewrite py_String; cbn [fold_left]; rewrite IH, Nat.tail_mul_spec;
    f_equal; unfold digit_value; cbn; lia.
Qed.

Lemma int_of_str_of_nat n : int_of_digits (str_of_nat n) = n.
Proof.
  unfold int_of_digits, str_of_nat, NilZero.string_of_uint.
  rewrite <- (Unsigned.of_to n) at 2. unfold Nat.of_uint.
  destruct (Nat.to_uint n) eqn:E; try apply digits_of_uint.
  reflexivity.
Qed.

Lemma int_of_leading_zeros k s :
  int_of_digits (repeat 48%N k ++ s) = int_of_digits s.
Proof.
  unfold int_of_digits. rewrite fold_left_app. f_equal.
  induction k as [|k IH]; [reflexivity|]. cbn [repeat fold_left]. exact IH.
Qed.

(** [int(f"{i:03d}") == i] *)
Lemma int_of_format_03d i : int_of_digits (format_03d i) = i.
Proof.
  unfold format_03d. rewrite int_of_leading_zeros. apply int_of_str_of_nat.
Qed.

(** Joining a directory with a relative name puts a fixed prefix before
    the name. *)
Lemma os_path_join_prefix temp_dir :
  exists prefix, forall name',
    startswith [slash] name' = false ->
    os_path_join temp_dir name' = prefix ++ name'.
Proof.
  unfold os_path_join.
  destruct (negb (truthy_str temp_dir) || endswith_slash temp_dir).
  - exists temp_dir. intros name' ->. reflexivity.
  - exists (temp_dir ++ [slash]). intros name' ->.
    now rewrite <- app_assoc.
Qed.

Lemma frame_name_no_slash i :
  startswith [slash] (py "frame_" ++ format_03d i ++ py ".jpg") = false.
Proof. reflexivity. Qed.

(** X7: frames of different indices are written to different files: the
    index can be read back from the file name, so no sampled frame
    overwrites another one, whatever the temporary directory and however
    many frames there are. *)
Theorem frame_path_injective temp_dir i j :
  frame_path temp_dir i = frame_path temp_dir j -> i = j.
Proof.
  unfold frame_path. intros H.
  destruct (os_path_join_prefix temp_dir) as [prefix Hp].
  rewrite (Hp _ (frame_name_no_slash i)), (Hp _ (frame_name_no_slash j)) in H.
  apply app_inv_head in H. apply app_inv_head in H. apply app_inv_tail in H.
  rewrite <- (int_of_format_03d i), <- (int_of_format_03d j). now rewrite H.
Qed.

Lemma frame_path_injective_witness :
  frame_path (py "/tmp/tmpabc") 7 = py "/tmp/tmpabc/frame_007.jpg" /\ 7 = 7.
Proof.
  split; [reflexivity|].
  apply (@frame_path_injective (py "/tmp/tmpabc") 7 7). reflexivity.
Defined.

(** ** A successful [generate_video_description] *)

Lemma save_frames_ok env video temp_dir ts :
  forall i w ps w',
    save_frames env video temp_dir i ts w = (Ok ps, w') ->
    ps = map (frame_path temp_dir) (seq i (length ts)) /\
    w' = mkWorld (w_log w ++ frame_events (v_reader video) temp_dir i ts)
                 (w_next w).
Proof.
  induction ts as [|t ts IH]; intros i w ps w'.
  - cbn [save_frames]. unfold ret. intros H. injection H as <- <-.
    cbn [length seq map frame_events]. rewrite app_nil_r. now destruct w.
  - cbn [save_frames]. unfold bind at 1. unfold save_frame. unfold_m.
    destruct (lib_raises env _) as [e|]; [discriminate|].
    cbn [w_log w_next].
    match goal with |- context [save_frames _ _ _ _ _ ?w1] =>
      destruct (save_frames env video temp_dir (S i) ts w1) as [[qs|e] w2] eqn:E
    end; [|discriminate].
    intros H. injection H as <- <-.
    destruct (IH _ _ _ _ E) as [-> ->]. cbn [w_log w_next].
    split; [reflexivity|]. cbn [frame_events]. now rewrite <- app_assoc.
Qed.

Lemma sample_frames_ok env video temp_dir N w ps w' :
  sample_frames env video temp_dir N w = (Ok ps, w') ->
  exists D,
    v_duration video = Some D /\ PrimFloat.leb D 0 = false /\
    ps = map (frame_path temp_dir)
             (seq 0 (length (sample_timestamps D N))) /\
    w' = mkWorld (w_log w ++ frame_events (v_reader video) temp_dir 0
                               (sample_timestamps D N))
                 (w_next w).
Proof.
  unfold sample_frames.
  destruct (v_duration video) as [d|]; [|discriminate].
  destruct (truthy_float d); [|discriminate].
  destruct (PrimFloat.leb d 0) eqn:E; [discriminate|].
  intros H. apply save_frames_ok in H. destruct H as [-> ->].
  exists d. split; [reflexivity|]. split; [exact E|]. split; reflexivity.
Qed.

(** The steps of a successful [generate_video_description]. *)
Lemma generate_video_description_steps env self vp instructions model N w
    out w' :
  generate_video_description env self vp instructions model N w = (Ok out, w') ->
  exists vf D b64s content,
    let d := mkdtemp env (w_next w) in
    let h := S (w_next w) in
    let ts := sample_timestamps D N in
    let req := vision_request model instructions 1000 (map data_uri b64s) in
    video_file env vp = Ok vf /\ vf_duration vf = Some D /\
    PrimFloat.leb D 0 = false /\
    Forall2 (fun p b => encode_image env p = Ok b)
            (map (frame_path d) (seq 0 (length ts))) b64s /\
    w_log w' = w_log w ++ [EvMkdtemp d; EvOpenVideo vp h]
                 ++ frame_events h d 0 ts
                 ++ [EvClose h (Some h); EvChatCompletion req; EvRmtree d] /\
    chat_completions_create env req = Ok content /\
    out = strip_fences (content_or_empty content).
Proof.
  destruct (os_path_exists env vp) eqn:Hex.
  2:{ unfold generate_video_description. rewrite Hex. discriminate. }
  destruct (video_file env vp) as [vf|e] eqn:Hvf.
  2:{ unfold generate_video_description, with_TemporaryDirectory, VideoFileClip.
      rewrite Hex, Hvf. unfold_m. discriminate. }
  destruct (generate_video_description_run env self vp instructions model N w
              Hex Hvf) as [video [w1 [Hr [Ho [Hd [Hlog Hrun]]]]]].
  rewrite Hrun. clear Hrun. unfold bind, try_finally.
  destruct (sample_frames env video _ N w1) as [[ps|e] ws] eqn:Es.
  2:{ destruct (close_video env video ws) as [[[]|e'] wc]; discriminate. }
  apply sample_frames_ok in Es. destruct Es as [D [HD [Hle [-> ->]]]].
  unfold close_video. unfold_m. rewrite Hr, Ho. cbn [w_log w_next].
  destruct (lib_raises env (CallClose (S (w_next w)))) as [e|]; [discriminate|].
  match goal with |- context [generate_image_description env self ?ips instructions model 1000 ?w2] =>
    destruct (generate_image_description env self ips instructions model 1000 w2)
      as [r w3] eqn:Eg end.
  intros H. injection H as -> <-.
  revert Eg. unfold generate_image_description. unfold bind at 1.
  match goal with |- context [image_urls_of env ?ps ?w2] =>
    pose proof (image_urls_of_world env ps w2) as Hw;
    destruct (image_urls_of env ps w2) as [[urls|e] wu] eqn:Eu end;
    cbn [snd] in Hw; subst wu; [|discriminate].
  apply image_urls_of_ok in Eu. destruct Eu as [b64s [HF ->]].
  unfold bind at 1. rewrite chat_create_run.
  fold (vision_request model instructions 1000 (map data_uri b64s)).
  destruct (chat_completions_create env _) as [content|e] eqn:Hc; [|discriminate].
  unfold ret. intros H. injection H as Ho' <-.
  exists vf, D, b64s, content. cbn zeta.
  split; [reflexivity|]. split; [congruence|]. split; [exact Hle|].
  split; [exact HF|]. split; [|split; [exact Hc|now symmetry]].
  cbn [w_log]. rewrite Hlog, <- !app_assoc. reflexivity.
Qed.

(** X8: a successful [generate_video_description] did exactly this, in
    this order: made the temporary directory, opened the video (of
    duration [D], not [<= 0]), saved one frame per timestamp of
    [sample_timestamps D N] to [frame_000.jpg], [frame_001.jpg], ... in
    that directory, closed the video, sent one vision request that carries
    the instructions and every saved frame, in index order, and removed
    the directory.  It returns the answer with the code fences stripped. *)
Theorem generate_video_description_trace env self vp instructions model N w
    out w' :
  generate_video_description env self vp instructions model N w = (Ok out, w') ->
  exists vf D b64s content,
    let d := mkdtemp env (w_next w) in
    let h := S (w_next w) in
    let ts := sample_timestamps D N in
    let req := vision_request model instructions 1000 (map data_uri b64s) in
    video_file env vp = Ok vf /\ vf_duration vf = Some D /\
    PrimFloat.leb D 0 = false /\
    Forall2 (fun p b => encode_image env p = Ok b)
            (map (frame_path d) (seq 0 (length ts))) b64s /\
    w_log w' = w_log w ++ [EvMkdtemp d; EvOpenVideo vp h]
                 ++ frame_events h d 0 ts
                 ++ [EvClose h (Some h); EvChatCompletion req; EvRmtree d] /\
    chat_completions_create env req = Ok content /\
    out = strip_fences (content_or_empty content).
Proof. apply generate_video_description_steps. Qed.

(** ** Speech synthesis *)

Lemma has_text_lstrip s : has_text s -> has_text (lstrip s).
Proof.
  unfold has_text. induction s as [|c s IH]; [discriminate|].
  cbn [lstrip existsb]. destruct (py_isspace c) eqn:E; cbn [negb orb].
  - exact IH.
  - intros _. cbn [existsb]. now rewrite E.
Qed.

Lemma has_text_rev s : has_text s -> has_text (rev s).
Proof.
  unfold has_text. rewrite !existsb_exists.
  intros [c [Hin Hc]]. exists c. split; [now apply in_rev in Hin|exact Hc].
Qed.

(** A text with a code point that is not white space keeps something when
    stripped. *)
Lemma has_text_strip s : has_text s -> truthy_str (strip s) = true.
Proof.
  intros H. unfold strip, rstrip.
  assert (H' : has_text (rev (lstrip (rev (lstrip s))))).
  { apply has_text_rev, has_text_lstrip, has_text_rev, has_text_lstrip, H. }
  destruct (rev (lstrip (rev (lstrip s)))); [discriminate H'|reflexivity].
Qed.

Lemma has_text_truthy s : has_text s -> truthy_str s = true.
Proof. destruct s; [discriminate|reflexivity]. Qed.

(** X9: for a text that is not blank, [generate_audio] sends exactly one
    speech request, carrying the text as given (not stripped), the model,
    the voice and the speed.  If the backend raises, that error is raised
    as it is and nothing is written; otherwise the audio is streamed to
    [file_path] and the call returns [True] (or raises what the write
    raised). *)
Theorem generate_audio_sends_text env self text file_path model voice speed w :
  has_text text ->
  let req := mkSpeech model voice text speed in
  generate_audio env self text file_path model voice speed w =
  match audio_speech_create env req with
  | Some e => (Raise e, mkWorld (w_log w ++ [EvSpeech req]) (w_next w))
  | None =>
      (match lib_raises env (CallStreamToFile file_path) with
       | Some e => Raise e
       | None => Ok true
       end,
       mkWorld (w_log w ++ [EvSpeech req; EvStreamToFile file_path]) (w_next w))
  end.
Proof.
  intros H req. unfold generate_audio.
  rewrite (@has_text_truthy text H), (@has_text_strip text H). cbn [negb orb].
  fold req. unfold_m. cbn [w_log w_next].
  destruct (audio_speech_create env req); [reflexivity|].
  cbn [w_log w_next]. rewrite <- app_assoc.
  destruct (lib_raises env (CallStreamToFile file_path)); reflexivity.
Qed.

(** ** Without an API key *)

Lemma jarvis_no_key env w :
  no_api_key env -> _jarvis env w = (Raise (RuntimeError missing_key_message), w).
Proof.
  unfold no_api_key, _jarvis. destruct (openai_api_key env) as [key|]; [|reflexivity].
  now intros ->.
Qed.

(** X10: without an API key (missing or empty) and no client made earlier
    in the process, [generate_voiceover_audio] raises the configuration
    error and does nothing else, whatever the text: the key is checked
    before the text is. *)
Theorem generate_voiceover_audio_without_key env text file_path voice speed w :
  no_api_key env ->
  generate_voiceover_audio env text file_path voice speed w =
  (Raise (RuntimeError missing_key_message), w).
Proof.
  intros H. unfold generate_voiceover_audio, bind.
  now rewrite (@jarvis_no_key env w H).
Qed.

(** ** The duration of a video *)

(** [get_video_duration] on a file that opens: one open, one close. *)
Lemma get_video_duration_steps env vp w vf :
  video_file env vp = Ok vf ->
  exists w',
    get_video_duration env vp w =
      (match lib_raises env (CallClose (w_next w)) with
       | Some e => Raise e
       | None =>
           match vf_duration vf with
           | Some d => Ok d
           | None => Raise TypeError
           end
       end, w') /\
    w_log w' = w_log w ++ [EvOpenVideo vp (w_next w); EvClose (w_next w) (Some (w_next w))] /\
    w_next w < w_next w'.
Proof.
  intros Hvf. unfold get_video_duration, VideoFileClip, close_video.
  rewrite Hvf. unfold_m. cbn [w_log w_next].
  destruct (vf_audio vf) as [[da caps]|]; unfold_m; cbn [v_duration v_oid v_reader w_log w_next];
    destruct (vf_duration vf) as [d|];
    destruct (lib_raises env (CallClose (w_next w))) as [e|];
    eexists; (split; [reflexivity|]); cbn [w_log w_next];
    rewrite <- app_assoc; (split; [reflexivity|lia]).
Qed.

(** X11: [get_video_duration] opens the file and does nothing else with
    it than close it: it always closes the clip it opened.  It returns
    the duration the file reports; a file without duration gives a
    [TypeError]; a failure of [close()] is what the call raises, over
    either; a file that does not open gives its error, with nothing to
    close. *)
Theorem get_video_duration_closes_clip env vp w :
  let h := w_next w in
  let run := get_video_duration env vp w in
  match video_file env vp with
  | Raise e => run = (Raise e, w)
  | Ok vf =>
      fst run =
        match lib_raises env (CallClose h) with
        | Some e => Raise e
        | None =>
            match vf_duration vf with
            | Some d => Ok d
            | None => Raise TypeError
            end
        end /\
      w_log (snd run) = w_log w ++ [EvOpenVideo vp h; EvClose h (Some h)]
  end.
Proof.
  intros h run. subst h run.
  destruct (video_file env vp) as [vf|e] eqn:Hvf.
  - destruct (@get_video_duration_steps env vp w vf Hvf) as [w1 [E [L _]]].
    rewrite E. split; [reflexivity|exact L].
  - unfold get_video_duration, VideoFileClip. rewrite Hvf. reflexivity.
Qed.


(** ** Every reader is released (generate_voiceover_text) *)

Lemma existsb_app_l (P : event -> bool) X Y :
  existsb P X = true -> existsb P (X ++ Y) = true.
Proof. intros H. rewrite existsb_app, H. reflexivity. Qed.

Lemma all_released_app X Y :
  all_released X = true -> all_released Y = true -> all_released (X ++ Y) = true.
Proof.
  induction X as [|ev X IH]; [intros _ H; exact H|].
  cbn [app all_released]. intros H HY. apply andb_prop in H. destruct H as [Hev HX].
  rewrite (IH HX HY), andb_true_r.
  destruct ev; try reflexivity; now apply existsb_app_l.
Qed.

Lemma get_video_duration_releases env vp w :
  exists evs,
    w_log (snd (get_video_duration env vp w)) = w_log w ++ evs /\
    all_released evs = true.
Proof.
  destruct (video_file env vp) as [vf|e] eqn:Hvf.
  - destruct (@get_video_duration_steps env vp w vf Hvf) as [w1 [E [L _]]].
    rewrite E. cbn [snd]. eexists. split; [exact L|].
    cbn [all_released existsb is_close]. now rewrite Nat.eqb_refl.
  - unfold get_video_duration, VideoFileClip. rewrite Hvf. unfold_m. cbn [snd].
    exists []. split; [now rewrite app_nil_r|reflexivity].
Qed.

Lemma jarvis_world env w : snd (_jarvis env w) = w.
Proof.
  unfold _jarvis. destruct (openai_api_key env) as [key|]; [|reflexivity].
  destruct (truthy_str key); reflexivity.
Qed.

(** X13: on every exit path of [generate_voiceover_text] - the file does
    not open, the key is missing, a frame cannot be written, the backend
    fails, or the text comes back - every reader it opened has been
    closed. *)
Theorem generate_voiceover_text_releases env vp instructions w :
  exists evs,
    w_log (snd (generate_voiceover_text env vp instructions w)) = w_log w ++ evs /\
    all_released evs = true.
Proof.
  unfold generate_voiceover_text. unfold bind at 1.
  destruct (get_video_duration_releases env vp w) as [X [LX RX]].
  destruct (get_video_duration env vp w) as [[D|e] w1]; cbn [snd] in LX.
  2:{ exists X. split; [exact LX|exact RX]. }
  unfold bind at 1. pose proof (jarvis_world env w1) as Hj.
  destruct (_jarvis env w1) as [[jarvis|e] wj]; cbn [snd] in Hj; subst wj.
  2:{ exists X. split; [exact LX|exact RX]. }
  unfold bind at 1.
  match goal with |- context [generate_video_description env jarvis vp ?i ?m ?n w1] =>
    destruct (generate_video_description_releases env jarvis vp i m n w1) as [Y [LY RY]];
    destruct (generate_video_description env jarvis vp i m n w1) as [[t|e] w2]
  end; cbn [snd] in LY; unfold ret; cbn [snd];
    (exists (X ++ Y); split; [rewrite LY, LX, app_assoc; reflexivity|
                              now apply all_released_app]).
Qed.

(** ** Merging: the output directory *)

Lemma closes_are_not_makedirs vc l :
  forallb (fun ev => negb (is_makedirs ev)) (merge_closes vc l) = true.
Proof.
  unfold merge_closes.
  destruct (added_audio_clip l) as [c|]; [destruct (a_reader c)|];
    destruct (final_clip l); reflexivity.
Qed.

Lemma closes_are_not_writes vc l :
  forallb (fun ev => negb (is_write ev)) (merge_closes vc l) = true.
Proof.
  unfold merge_closes.
  destruct (added_audio_clip l) as [c|]; [destruct (a_reader c)|];
    destruct (final_clip l); reflexivity.
Qed.

Lemma ensure_output_dir_steps env mp w :
  let dir := os_path_dirname (os_path_abspath env mp) in
  ensure_output_dir env mp w =
  (match output_dir_events env mp with
   | [] => Ok tt
   | _ :: _ => match lib_raises env (CallMakedirs dir) with
               | Some e => Raise e
               | None => Ok tt
               end
   end,
   mkWorld (w_log w ++ output_dir_events env mp) (w_next w)).
Proof.
  intros dir. unfold ensure_output_dir, output_dir_events. fold dir.
  destruct (truthy_str dir && negb (os_path_exists env dir)).
  - unfold_m. destruct (lib_raises env (CallMakedirs dir)); reflexivity.
  - unfold ret. rewrite app_nil_r. now destruct w.
Qed.

(** What [merge_video_with_audio] does once the directory is settled:
    open, maybe write, close. *)
Lemma merge_after_dir env vp ap mp vv av w0 :
  exists rest,
    w_log (snd (bind (VideoFileClip env vp) (fun video_clip =>
                bind (AudioFileClip env ap) (fun added =>
                  with_locals (mkLocals (Some added) None)
                    (try_finally
                       (merge_try env video_clip mp (tmp_audiofile env) vv av)
                       (merge_finally env video_clip)))) w0))
      = w_log w0 ++ rest /\
    forallb (fun ev => negb (is_makedirs ev)) rest = true.
Proof.
  unfold bind at 1.
  destruct (video_file env vp) as [vf|e] eqn:Hvf.
  2:{ unfold VideoFileClip. rewrite Hvf. unfold raise. cbn [snd].
      exists []. split; [now rewrite app_nil_r|reflexivity]. }
  assert (Hopen : exists vc w1,
            VideoFileClip env vp w0 = (Ok vc, w1) /\
            w_log w1 = w_log w0 ++ [EvOpenVideo vp (w_next w0)]).
  { unfold VideoFileClip. rewrite Hvf. unfold_m. cbn [w_log w_next].
    destruct (vf_audio vf) as [[da caps]|]; unfold_m; cbn [w_log w_next];
      do 2 eexists; (split; [reflexivity|]); reflexivity. }
  destruct Hopen as [vc [w1 [E1 L1]]]. rewrite E1.
  unfold bind at 1. unfold AudioFileClip.
  destruct (audio_file env ap) as [af|e] eqn:Haf.
  2:{ unfold raise. cbn [snd]. eexists. split; [exact L1|reflexivity]. }
  unfold bind, fresh, emit, ret. cbn [w_log w_next].
  set (hA := w_next w1).
  set (c0 := mkAudio hA (af_caps af) (af_duration af) [] (Some hA) []).
  set (w2 := mkWorld (w_log w1 ++ [EvOpenAudio ap hA]) (S hA)).
  match goal with |- context [merge_try env vc mp ?tmp vv av] =>
    pose proof (merge_try_spec env vc mp tmp vv av c0 w2) as Hbody;
    pose proof (merge_protected_run env vc (merge_try env vc mp tmp vv av)
                  (mkLocals (Some c0) None) w2) as Hrun;
    destruct (merge_try env vc mp tmp vv av (mkLocals (Some c0) None, w2))
      as [r [l w3]]
  end.
  destruct Hrun as [w4 [-> L4]]. cbn [snd].
  destruct Hbody as [narr [Ha [Hder Hfc]]].
  pose proof (closes_are_not_makedirs vc l) as Hcl.
  destruct (final_clip l) as [fc|] eqn:Efc.
  - destruct Hfc as [_ [L3 _]].
    exists ([EvOpenVideo vp (w_next w0); EvOpenAudio ap hA]
            ++ [EvWriteVideofile fc mp libx264 aac (tmp_audiofile env)]
            ++ merge_closes vc l).
    split.
    + rewrite L4, L3. unfold w2. cbn [w_log]. rewrite L1, <- !app_assoc.
      reflexivity.
    + cbn [app forallb is_makedirs negb andb]. exact Hcl.
  - destruct Hfc as [L3 _].
    exists ([EvOpenVideo vp (w_next w0); EvOpenAudio ap hA] ++ merge_closes vc l).
    split.
    + rewrite L4, L3. unfold w2. cbn [w_log]. rewrite L1, <- !app_assoc.
      reflexivity.
    + cbn [app forallb is_makedirs negb andb]. exact Hcl.
Qed.

(** X14: [merge_video_with_audio] calls [os.makedirs] at most once, before
    anything else, and only when the directory of the (absolute) output
    path has a name and does not exist; when that call fails, its error is
    raised and no file is opened. *)
Theorem merge_makes_output_dir_first env vp ap mp vv av w :
  let dir := os_path_dirname (os_path_abspath env mp) in
  let run := merge_video_with_audio env vp ap mp vv av w in
  exists rest,
    w_log (snd run) = w_log w ++ output_dir_events env mp ++ rest /\
    forallb (fun ev => negb (is_makedirs ev)) rest = true /\
    (forall e,
       output_dir_events env mp = [EvMakedirs dir] ->
       lib_raises env (CallMakedirs dir) = Some e ->
       fst run = Raise e /\ rest = []).
Proof.
  intros dir run. subst run. rewrite merge_video_with_audio_eq.
  match goal with |- context [bind (ensure_output_dir env mp) ?k w] =>
    set (K := k);
    change (bind (ensure_output_dir env mp) K w)
      with (match ensure_output_dir env mp w with
            | (Ok a, s') => K a s'
            | (Raise e, s') => (Raise e, s')
            end)
  end.
  rewrite ensure_output_dir_steps. fold dir. subst K. cbv beta.
  destruct (output_dir_events env mp) as [|ev evs] eqn:Eev.
  - match goal with |- context [bind (VideoFileClip env vp) ?k ?w0] =>
      destruct (merge_after_dir env vp ap mp vv av w0) as [rest [L H]] end.
    exists rest. cbn [w_log] in L. rewrite app_nil_r in *.
    split; [exact L|split; [exact H|discriminate]].
  - destruct (lib_raises env (CallMakedirs dir)) as [e|] eqn:El.
    + exists []. cbn [fst snd w_log]. rewrite app_nil_r.
      split; [reflexivity|split; [reflexivity|]].
      intros e' _ H. injection H as ->. split; reflexivity.
    + match goal with |- context [bind (VideoFileClip env vp) ?k ?w0] =>
        destruct (merge_after_dir env vp ap mp vv av w0) as [rest [L H]] end.
      exists rest. cbn [w_log] in L.
      split; [rewrite L, <- app_assoc; reflexivity|split; [exact H|discriminate]].
Qed.

(** ** Merging: nothing to adjust *)

Lemma scale_volume_absent env volume w :
  _scale_volume env None volume w = (Ok None, w).
Proof.
  unfold _scale_volume. cbn [is_None]. rewrite orb_true_r. reflexivity.
Qed.

Lemma scale_volume_one env a w : _scale_volume env a 1 w = (Ok a, w).
Proof. reflexivity. Qed.

(** With nothing to scale and nothing to cut, the [try] goes straight to
    attaching the narration. *)
Lemma merge_try_plain env vc mp tmp vv c0 dv dn w1 :
  v_audio vc = None -> v_duration vc = Some dv -> a_duration c0 = Some dn ->
  PrimFloat.ltb dv dn = false ->
  merge_try env vc mp tmp vv 1 (mkLocals (Some c0) None, w1) =
  merge_compose env vc None mp tmp (mkLocals (Some c0) None, w1).
Proof.
  intros Hva Hvd Had Hlt. unfold merge_try. rewrite Hva, Hvd.
  unfold bind at 1. unfold lift at 1. rewrite scale_volume_absent.
  unfold bind at 1. unfold get_local at 1. cbn [added_audio_clip].
  unfold bind at 1. unfold lift at 1. rewrite scale_volume_one.
  unfold bind at 1. unfold set_local at 1. cbn [final_clip].
  unfold bind at 1. unfold get_local at 1. cbn [added_audio_clip].
  unfold bind at 1. unfold duration_of at 1. unfold ret at 1. rewrite Had.
  unfold bind at 1. unfold gt_duration at 1. unfold ret at 1. rewrite Hlt.
  unfold bind at 1. unfold ret at 1. reflexivity.
Qed.

(** Attaching the narration alone and writing the file. *)
Lemma merge_compose_plain env vc mp tmp c0 w1 r l w2 :
  merge_compose env vc None mp tmp (mkLocals (Some c0) None, w1) = (Ok r, (l, w2)) ->
  let fc := mkVideo (w_next w1) (v_caps vc) (v_reader vc) (v_duration vc) (Some c0) in
  r = mp /\ l = mkLocals (Some c0) (Some fc) /\
  w2 = mkWorld (w_log w1 ++ [EvWriteVideofile fc mp libx264 aac tmp]) (S (w_next w1)).
Proof.
  unfold merge_compose, _set_audio, with_audio, write_videofile. unfold_m.
  cbn [added_audio_clip final_clip].
  destruct (has_with_audio (v_caps vc)); [|destruct (has_set_audio (v_caps vc))];
    try discriminate;
    (destruct (lib_raises env (CallSetAudio (v_oid vc))); [discriminate|]);
    cbn [w_log w_next v_oid];
    (destruct (lib_raises env (CallWriteVideofile (w_next w1) mp)); [discriminate|]);
    intros H; injection H as <- <- <-; repeat split.
Qed.

(** X15: when the video has no audio track, the narration volume is 1.0
    and the narration is not longer than the video, a successful
    [merge_video_with_audio] processes no audio at all: the clip it writes
    carries the very clip [AudioFileClip] returned.  Its whole trace is:
    the directory step, the two opens, one [write_videofile], and the
    three [close()] calls of the [finally], the video's reader being
    closed twice (by the video clip and by the final clip made from it). *)
Theorem merge_without_processing env vp ap mp vv w vf af dv dn out w' :
  video_file env vp = Ok vf -> vf_audio vf = None -> vf_duration vf = Some dv ->
  audio_file env ap = Ok af -> af_duration af = Some dn ->
  PrimFloat.ltb dv dn = false ->
  merge_video_with_audio env vp ap mp vv 1 w = (Ok out, w') ->
  let hV := w_next w in
  let hA := S hV in
  let fc := mkVideo (S hA) (vf_caps vf) hV (Some dv)
              (Some (opened_narration af hA)) in
  out = mp /\
  w_log w' =
    w_log w ++ output_dir_events env mp ++
    [EvOpenVideo vp hV; EvOpenAudio ap hA;
     EvWriteVideofile fc mp libx264 aac (tmp_audiofile env);
     EvClose hA (Some hA); EvClose hV (Some hV); EvClose (S hA) (Some hV)].
Proof.
  intros Hvf Hva Hvd Haf Had Hlt. rewrite merge_video_with_audio_eq.
  unfold bind at 1. rewrite ensure_output_dir_steps.
  set (pre := output_dir_events env mp).
  destruct (match pre with
            | [] => Ok tt
            | _ :: _ =>
                match lib_raises env (CallMakedirs _) with
                | Some e => Raise e
                | None => Ok tt
                end
            end) as [[]|e]; [|discriminate].
  unfold bind at 1. unfold VideoFileClip. rewrite Hvf, Hva, Hvd.
  unfold bind at 1. unfold fresh at 1. cbn [w_log w_next].
  unfold bind at 1. unfold emit at 1. cbn [w_log w_next].
  unfold bind at 1. unfold ret at 1. unfold ret at 1.
  unfold bind at 1. unfold AudioFileClip. rewrite Haf.
  unfold bind at 1. unfold fresh at 1. cbn [w_log w_next].
  unfold bind at 1. unfold emit at 1. cbn [w_log w_next]. unfold ret at 1.
  fold (opened_narration af (S (w_next w))).
  set (vc := mkVideo (w_next w) (vf_caps vf) (w_next w) (Some dv) None).
  set (c0 := opened_narration af (S (w_next w))).
  match goal with |- with_locals _ _ ?w2 = _ -> _ =>
    pose proof (merge_protected_run env vc
                  (merge_try env vc mp (tmp_audiofile env) vv 1)
                  (mkLocals (Some c0) None) w2) as Hrun
  end.
  rewrite (@merge_try_plain env vc mp (tmp_audiofile env) vv c0 dv dn _
             eq_refl eq_refl Had Hlt) in Hrun.
  match type of Hrun with context [merge_compose env vc None mp ?tmp ?s] =>
    destruct (merge_compose env vc None mp tmp s) as [r [l w3]] eqn:Ec
  end.
  destruct Hrun as [w4 [-> L4]]. intros H. injection H as -> ->.
  apply merge_compose_plain in Ec. cbn [w_log w_next] in Ec.
  destruct Ec as [-> [-> ->]]. split; [reflexivity|].
  rewrite L4. unfold merge_closes. cbn [w_log added_audio_clip final_clip].
  subst c0 vc. cbn [a_reader opened_narration v_reader v_caps v_duration].
  rewrite <- !app_assoc. reflexivity.
Qed.

(** ** Merging: a duration is unknown *)

Lemma output_dir_events_not_writes env mp :
  forallb (fun ev => negb (is_write ev)) (output_dir_events env mp) = true.
Proof.
  unfold output_dir_events. destruct (truthy_str _ && negb _); reflexivity.
Qed.

(** X16: when the video or the narration reports no duration, the
    comparison of line 160 cannot be made: [merge_video_with_audio] raises
    and never calls [write_videofile]. *)
Theorem merge_unknown_duration env vp ap mp vv av w vf af :
  video_file env vp = Ok vf -> audio_file env ap = Ok af ->
  vf_duration vf = None \/ af_duration af = None ->
  exists e evs,
    fst (merge_video_with_audio env vp ap mp vv av w) = Raise e /\
    w_log (snd (merge_video_with_audio env vp ap mp vv av w)) = w_log w ++ evs /\
    forallb (fun ev => negb (is_write ev)) evs = true.
Proof.
  intros Hvf Haf Hdur. rewrite merge_video_with_audio_eq.
  match goal with |- context [bind (ensure_output_dir env mp) ?k w] =>
    set (K := k);
    change (bind (ensure_output_dir env mp) K w)
      with (match ensure_output_dir env mp w with
            | (Ok a, s') => K a s'
            | (Raise e, s') => (Raise e, s')
            end)
  end.
  rewrite ensure_output_dir_steps.
  pose proof (output_dir_events_not_writes env mp) as Hpre.
  set (pre := output_dir_events env mp) in *.
  destruct (match pre with
            | [] => Ok tt
            | _ :: _ =>
                match lib_raises env (CallMakedirs _) with
                | Some e => Raise e
                | None => Ok tt
                end
            end) as [[]|e].
  2:{ exists e, pre. cbn [fst snd w_log]. repeat split. exact Hpre. }
  subst K. cbv beta.
  set (h := w_next w).
  assert (Hopen : exists vc w1,
            VideoFileClip env vp (mkWorld (w_log w ++ pre) h) = (Ok vc, w1) /\
            v_duration vc = vf_duration vf /\
            w_log w1 = (w_log w ++ pre) ++ [EvOpenVideo vp h]).
  { unfold VideoFileClip. rewrite Hvf. unfold_m. cbn [w_log w_next].
    destruct (vf_audio vf) as [[da caps]|]; unfold_m; cbn [w_log w_next];
      do 2 eexists; (split; [reflexivity|]); cbn [v_duration w_log];
      split; reflexivity. }
  destruct Hopen as [vc [w1 [E1 [Hd L1]]]].
  unfold bind at 1 3. rewrite E1.
  unfold AudioFileClip. rewrite Haf.
  unfold bind, fresh, emit, ret. cbn [w_log w_next].
  set (hA := w_next w1).
  set (c0 := mkAudio hA (af_caps af) (af_duration af) [] (Some hA) []).
  set (w2 := mkWorld (w_log w1 ++ [EvOpenAudio ap hA]) (S hA)).
  match goal with |- context [merge_try env vc mp ?tmp vv av] =>
    pose proof (merge_try_spec env vc mp tmp vv av c0 w2) as Hbody;
    pose proof (merge_protected_run env vc (merge_try env vc mp tmp vv av)
                  (mkLocals (Some c0) None) w2) as Hrun;
    destruct (merge_try env vc mp tmp vv av (mkLocals (Some c0) None, w2))
      as [r [l w3]]
  end.
  destruct Hrun as [w4 [-> L4]]. cbn [fst snd].
  destruct Hbody as [narr [Ha [Hder Hfc]]].
  destruct (final_clip l) as [fc|] eqn:Efc.
  - exfalso. destruct Hfc as [[_ [_ [[c1 [Hs Hn]] _]]] _].
    destruct Hs as [_ [Hd1 _]]. rewrite Hd1, Hd in Hn. subst c0.
    cbn [a_duration] in Hn.
    destruct Hdur as [Hv | Hn'];
      [rewrite Hv in Hn; destruct (af_duration af); exact Hn
      |rewrite Hn' in Hn; exact Hn].
  - destruct Hfc as [L3 [e ->]].
    exists e, (pre ++ [EvOpenVideo vp h; EvOpenAudio ap hA] ++ merge_closes vc l).
    split; [reflexivity|]. split.
    + rewrite L4, L3. unfold w2. cbn [w_log]. rewrite L1, <- !app_assoc.
      reflexivity.
    + rewrite forallb_app, Hpre. cbn [app forallb is_write negb andb].
      apply closes_are_not_writes.
Qed.

(** ** The cached client (_jarvis) *)

Lemma jarvis_calls_warm envs client w :
  jarvis_calls envs (Some client, w) =
  (repeat (Ok client) (length envs), (Some client, w)).
Proof.
  induction envs as [|env envs IH]; [reflexivity|].
  cbn [jarvis_calls _jarvis_cached length repeat]. now rewrite IH.
Qed.


(** ** Documents *)

Lemma join_empty_app ps1 ps2 :
  join [] (ps1 ++ ps2) = join [] ps1 ++ join [] ps2.
Proof.
  induction ps1 as [|p ps1 IH]; [reflexivity|].
  assert (E : forall q qs, join [] (q :: qs) = q ++ join [] qs).
  { intros q [|q' qs]; cbn [join app]; [now rewrite app_nil_r|reflexivity]. }
  cbn [app]. rewrite !E, IH, app_assoc. reflexivity.
Qed.

(** X18: [read_pdf] glues the pages with nothing between them, and a page
    without text ([extract_text()] gives [None] or the empty string) adds
    nothing: the text is the same as that of the document without that
    page. *)
Theorem read_pdf_skips_empty_pages docs docs' file_path ps1 p ps2 :
  pdf_pages docs file_path = Ok (ps1 ++ p :: ps2) ->
  content_or_empty p = [] ->
  pdf_pages docs' file_path = Ok (ps1 ++ ps2) ->
  read_pdf docs file_path = read_pdf docs' file_path.
Proof.
  intros H Hp H'. unfold read_pdf. rewrite H, H'. f_equal.
  rewrite !map_app, !join_empty_app. cbn [map].
  change (content_or_empty p :: map content_or_empty ps2)
    with ([content_or_empty p] ++ map content_or_empty ps2).
  rewrite join_empty_app. cbn [join]. now rewrite Hp.
Qed.

Lemma split_on_app sep p rest :
  ~ In sep p ->
  split_on sep (p ++ sep :: rest) = p :: split_on sep rest.
Proof.
  induction p as [|c p IH]; intros Hp.
  - cbn [app split_on]. now rewrite N.eqb_refl.
  - cbn [app split_on].
    destruct (N.eqb c sep) eqn:E.
    + apply N.eqb_eq in E. exfalso. apply Hp. now left.
    + rewrite IH by (intros Hin; apply Hp; now right). reflexivity.
Qed.

Lemma split_on_single sep p : ~ In sep p -> split_on sep p = [p].
Proof.
  induction p as [|c p IH]; intros Hp; [reflexivity|].
  cbn [split_on]. destruct (N.eqb c sep) eqn:E.
  - apply N.eqb_eq in E. exfalso. apply Hp. now left.
  - rewrite IH by (intros Hin; apply Hp; now right). reflexivity.
Qed.

(** X19: [read_docx] keeps the paragraphs apart: when the document has at
    least one paragraph and no paragraph holds a line break, splitting the
    text it returns at the line breaks gives the paragraphs back. *)
Theorem read_docx_round_trip docs file_path paragraphs :
  docx_paragraphs docs file_path = Ok paragraphs ->
  paragraphs <> [] ->
  Forall (fun p => ~ In 10%N p) paragraphs ->
  exists text,
    read_docx docs file_path = Ok text /\ split_on 10%N text = paragraphs.
Proof.
  intros H Hne Hall. unfold read_docx. rewrite H. eexists. split; [reflexivity|].
  clear H. induction paragraphs as [|p ps IH]; [contradiction|].
  inversion Hall as [|p' ps' Hp Hps]; subst.
  destruct ps as [|q ps].
  - cbn [join]. now apply split_on_single.
  - change (join [10%N] (p :: q :: ps)) with (p ++ 10%N :: join [10%N] (q :: ps)).
    rewrite split_on_app by exact Hp. f_equal. apply IH; [discriminate|exact Hps].
Qed.

(** ** The whole of a successful [generate_voiceover_text] *)

Lemma sample_timestamps_ten D : length (sample_timestamps D 10) = 10.
Proof.
  rewrite sample_timestamps_many by lia. now rewrite length_map, range_length.
Qed.

(** X20: a successful [generate_voiceover_text] opens the video twice, one
    reader after the other: once to read the duration [D] (opened and
    closed before anything else), once to sample frames.  It samples
    exactly ten frames, and sends one request, whose instructions are the
    caller's with the budget for [200 / 60 * D] words appended. *)
Theorem generate_voiceover_text_trace env vp instructions w out w' :
  generate_voiceover_text env vp instructions w = (Ok out, w') ->
  exists D d h2 b64s,
    let h1 := w_next w in
    let ts := sample_timestamps D 10 in
    let req :=
      vision_request gpt_4o_mini
        (instructions_modified instructions (200 / 60 * D)%float) 1000
        (map data_uri b64s) in
    h1 < h2 /\ length ts = 10 /\ length b64s = 10 /\
    w_log w' =
      w_log w ++ [EvOpenVideo vp h1; EvClose h1 (Some h1); EvMkdtemp d; EvOpenVideo vp h2]
        ++ frame_events h2 d 0 ts
        ++ [EvClose h2 (Some h2); EvChatCompletion req; EvRmtree d].
Proof.
  unfold generate_voiceover_text. unfold bind at 1.
  destruct (video_file env vp) as [vf|e] eqn:Hvf.
  2:{ unfold get_video_duration, VideoFileClip. rewrite Hvf. discriminate. }
  destruct (@get_video_duration_steps env vp w vf Hvf) as [w1 [E [L Hn]]].
  rewrite E.
  destruct (lib_raises env (CallClose (w_next w))); [discriminate|].
  destruct (vf_duration vf) as [D|] eqn:HD; [|discriminate].
  unfold bind at 1. pose proof (jarvis_world env w1) as Hj.
  destruct (_jarvis env w1) as [[jarvis|e] wj]; cbn [snd] in Hj; subst wj;
    [|discriminate].
  unfold bind at 1.
  destruct (generate_video_description env jarvis vp _ gpt_4o_mini 10 w1)
    as [[text|e] w2] eqn:E2; [|discriminate].
  unfold ret. intros H. injection H as <- <-.
  apply generate_video_description_steps in E2.
  destruct E2 as [vf' [D' [b64s [content [Hvf' [HD' [Hle [HF [Hlog _]]]]]]]]].
  cbn zeta in HF, Hlog.
  exists D, (mkdtemp env (w_next w1)), (S (w_next w1)), b64s. cbn zeta.
  pose proof (Forall2_length HF) as Hlen.
  rewrite length_map, length_seq in Hlen.
  assert (D' = D) as ->.
  { rewrite Hvf in Hvf'. injection Hvf' as <-. congruence. }
  rewrite sample_timestamps_ten in Hlen.
  split; [lia|]. split; [apply sample_timestamps_ten|]. split; [now symmetry|].
  rewrite Hlog, L, <- !app_assoc. reflexivity.
Qed.

(** ** A frame that cannot be written (generate_video_description) *)

Lemma save_frames_fails env video temp_dir ts :
  forall i k e w,
    k < length ts ->
    (forall j, j < k ->
       lib_raises env (CallSaveFrame (v_oid video) (frame_path temp_dir (i + j))
                         (nth j ts 0%float)) = None) ->
    lib_raises env (CallSaveFrame (v_oid video) (frame_path temp_dir (i + k))
                      (nth k ts 0%float)) = Some e ->
    save_frames env video temp_dir i ts w =
    (Raise e,
     mkWorld (w_log w ++ frame_events (v_reader video) temp_dir i (firstn (S k) ts))
             (w_next w)).
Proof.
  induction ts as [|t ts IH]; intros i k e w Hk Hbefore Hat; [cbn in Hk; lia|].
  cbn [save_frames]. unfold bind at 1. unfold save_frame. unfold_m.
  destruct k as [|k].
  - rewrite Nat.add_0_r in Hat. cbn [nth] in Hat. rewrite Hat.
    cbn [firstn frame_events]. reflexivity.
  - pose proof (Hbefore 0 ltac:(lia)) as H0. rewrite Nat.add_0_r in H0.
    cbn [nth] in H0. rewrite H0. cbn [w_log w_next].
    rewrite (IH (S i) k e).
    + cbn [w_log w_next firstn frame_events]. now rewrite <- app_assoc.
    + cbn [length] in Hk. lia.
    + intros j Hj. specialize (Hbefore (S j) ltac:(lia)).
      cbn [nth] in Hbefore. now rewrite Nat.add_succ_r in Hbefore.
    + cbn [nth] in Hat. now rewrite Nat.add_succ_r in Hat.
Qed.

Lemma not_leb_zero_truthy D : PrimFloat.leb D 0 = false -> truthy_float D = true.
Proof.
  unfold truthy_float. rewrite FloatAxioms.leb_spec, FloatAxioms.eqb_spec.
  unfold SpecFloat.SFleb, SpecFloat.SFeqb.
  destruct (SpecFloat.SFcompare _ _) as [[]|]; intros H;
    try discriminate H; reflexivity.
Qed.


(** ** The whole of a successful merge *)

(** X22: a successful [merge_video_with_audio] returns [merged_path] as it
    was given and did exactly this, in this order: the directory step,
    open the video, open the narration, one [write_videofile] to
    [merged_path] (codecs libx264 and aac, temporary audio in the system
    temp directory), then the three [close()] calls of the [finally]:
    the narration, the video, and the final clip, which closes the video's
    reader a second time. *)
Theorem merge_success_trace env vp ap mp vv av w out w' :
  merge_video_with_audio env vp ap mp vv av w = (Ok out, w') ->
  exists fc hA oN,
    let hV := w_next w in
    out = mp /\ hV < hA /\ v_reader fc = hV /\
    w_log w' =
      w_log w ++ output_dir_events env mp ++
      [EvOpenVideo vp hV; EvOpenAudio ap hA;
       EvWriteVideofile fc mp libx264 aac (tmp_audiofile env);
       EvClose oN (Some hA); EvClose hV (Some hV); EvClose (v_oid fc) (Some hV)].
Proof.
  rewrite merge_video_with_audio_eq.
  unfold bind at 1. rewrite ensure_output_dir_steps.
  set (pre := output_dir_events env mp).
  destruct (match pre with
            | [] => Ok tt
            | _ :: _ =>
                match lib_raises env (CallMakedirs _) with
                | Some e => Raise e
                | None => Ok tt
                end
            end) as [[]|e]; [|discriminate].
  set (h := w_next w).
  destruct (video_file env vp) as [vf|e] eqn:Hvf.
  2:{ unfold bind, VideoFileClip. rewrite Hvf. discriminate. }
  assert (Hopen : exists vc w1,
            VideoFileClip env vp (mkWorld (w_log w ++ pre) h) = (Ok vc, w1) /\
            v_reader vc = h /\ v_oid vc = h /\
            w_log w1 = (w_log w ++ pre) ++ [EvOpenVideo vp h] /\
            h < w_next w1).
  { unfold VideoFileClip. rewrite Hvf. unfold_m. cbn [w_log w_next].
    destruct (vf_audio vf) as [[da caps]|]; unfold_m; cbn [w_log w_next];
      do 2 eexists; (split; [reflexivity|]); cbn [v_reader v_oid w_log w_next];
      repeat split; lia. }
  destruct Hopen as [vc [w1 [E1 [Hr [Ho [L1 Hn]]]]]].
  unfold bind at 1. rewrite E1.
  unfold bind at 1. unfold AudioFileClip.
  destruct (audio_file env ap) as [af|e] eqn:Haf; [|discriminate].
  unfold bind, fresh, emit, ret. cbn [w_log w_next].
  set (hA := w_next w1).
  set (c0 := mkAudio hA (af_caps af) (af_duration af) [] (Some hA) []).
  set (w2 := mkWorld (w_log w1 ++ [EvOpenAudio ap hA]) (S hA)).
  match goal with |- context [merge_try env vc mp ?tmp vv av] =>
    pose proof (merge_try_spec env vc mp tmp vv av c0 w2) as Hbody;
    pose proof (merge_protected_run env vc (merge_try env vc mp tmp vv av)
                  (mkLocals (Some c0) None) w2) as Hrun;
    destruct (merge_try env vc mp tmp vv av (mkLocals (Some c0) None, w2))
      as [r [l w3]]
  end.
  destruct Hrun as [w4 [-> L4]]. intros H. injection H as -> ->.
  destruct Hbody as [narr [Ha [Hder Hfc]]].
  assert (Hrd : a_reader narr = Some hA) by (destruct Hder as [_ [-> _]]; reflexivity).
  unfold merge_closes in L4. rewrite Ha, Hrd in L4.
  destruct (final_clip l) as [fc|].
  2:{ destruct Hfc as [_ [e He]]. discriminate He. }
  destruct Hfc as [[Hfr _] [L3 Hres]].
  exists fc, hA, (a_oid narr). cbn zeta.
  split.
  { destruct (lib_raises env (CallWriteVideofile (v_oid fc) mp));
      [discriminate Hres|now injection Hres]. }
  split; [exact Hn|]. split; [congruence|].
  rewrite L4, L3. unfold w2. cbn [w_log]. rewrite L1, Hfr, Hr, Ho, <- !app_assoc.
  reflexivity.
Qed.

(** ** The properties above on the example environments *)

Lemma generate_text_keeps_plain_text_witness :
  generate_text env_plain_answer Demo.jarvis (py "What is on the picture?")
    Demo.instructions gpt_4o_mini (py "text") 1%float Demo.w0 =
  (Ok (py "A calm lake at dawn."),
   mkWorld [EvChatCompletion
              (text_request gpt_4o_mini Demo.instructions
                 (py "What is on the picture?") (py "text") 1%float)] 0).
Proof.
  apply (@generate_text_keeps_plain_text env_plain_answer Demo.jarvis
           (py "What is on the picture?") Demo.instructions gpt_4o_mini
           (py "text") 1%float Demo.w0 (py "A calm lake at dawn.")).
  - reflexivity.
  - intros C. apply py_in_contains in C. vm_compute in C. discriminate C.
Defined.

Lemma generate_image_description_attaches_all_witness :
  exists b64s content,
    Forall2 (fun p b => encode_image Demo.env p = Ok b)
            [py "/in/a.jpg"; py "/in/b.jpg"] b64s /\
    let req := vision_request gpt_4o_mini Demo.instructions 1000
                 (map data_uri b64s) in
    mkWorld [EvChatCompletion
               (vision_request gpt_4o_mini Demo.instructions 1000
                  [data_uri (py "QUJD"); data_uri (py "QUJD")])] 0 =
    mkWorld (w_log Demo.w0 ++ [EvChatCompletion req]) (w_next Demo.w0) /\
    chat_completions_create Demo.env req = Ok content /\
    py "<p>A calm lake at dawn.</p>" = strip_fences (content_or_empty content).
Proof.
  apply (@generate_image_description_attaches_all Demo.env Demo.jarvis
           (StrList [py "/in/a.jpg"; py "/in/b.jpg"]) Demo.instructions
           gpt_4o_mini 1000 Demo.w0).
  reflexivity.
Defined.

Lemma generate_image_description_unreadable_image_witness :
  generate_image_description env_unreadable_image Demo.jarvis
    (StrList ([py "/in/a.jpg"] ++ [] :: [py "/in/b.jpg"])) Demo.instructions
    gpt_4o_mini 1000 Demo.w0 =
  (Raise (FileNotFoundError []), Demo.w0).
Proof.
  apply (@generate_image_description_unreadable_image env_unreadable_image
           Demo.jarvis [py "/in/a.jpg"] [] [py "/in/b.jpg"]
           (FileNotFoundError []) Demo.instructions gpt_4o_mini 1000 Demo.w0).
  - constructor; [|constructor]. exists (py "QUJD"). reflexivity.
  - reflexivity.
Defined.

Lemma generate_video_description_trace_witness :
  let run := generate_video_description Demo.env Demo.jarvis Demo.video_path
               Demo.instructions gpt_4o_mini 5 Demo.w0 in
  fst run = Ok (py "<p>A calm lake at dawn.</p>") /\
  exists vf D b64s content,
    let d := mkdtemp Demo.env (w_next Demo.w0) in
    let h := S (w_next Demo.w0) in
    let ts := sample_timestamps D 5 in
    let req := vision_request gpt_4o_mini Demo.instructions 1000
                 (map data_uri b64s) in
    video_file Demo.env Demo.video_path = Ok vf /\ vf_duration vf = Some D /\
    PrimFloat.leb D 0 = false /\
    Forall2 (fun p b => encode_image Demo.env p = Ok b)
            (map (frame_path d) (seq 0 (length ts))) b64s /\
    w_log (snd run) = w_log Demo.w0 ++ [EvMkdtemp d; EvOpenVideo Demo.video_path h]
                 ++ frame_events h d 0 ts
                 ++ [EvClose h (Some h); EvChatCompletion req; EvRmtree d] /\
    chat_completions_create Demo.env req = Ok content /\
    py "<p>A calm lake at dawn.</p>" = strip_fences (content_or_empty content).
Proof.
  intros run. split; [reflexivity|].
  apply (@generate_video_description_trace Demo.env Demo.jarvis Demo.video_path
           Demo.instructions gpt_4o_mini 5 Demo.w0
           (py "<p>A calm lake at dawn.</p>") (snd run)).
  reflexivity.
Defined.

Lemma generate_audio_sends_text_witness :
  generate_audio Demo.env Demo.jarvis (py " Hello. ") (py "/out/voice.mp3")
    (py "gpt-4o-mini-tts") (py "nova") 1%float Demo.w0 =
  (Ok true,
   mkWorld [EvSpeech (mkSpeech (py "gpt-4o-mini-tts") (py "nova") (py " Hello. ")
                        1%float);
            EvStreamToFile (py "/out/voice.mp3")] 0).
Proof.
  apply (@generate_audio_sends_text Demo.env Demo.jarvis (py " Hello. ")
           (py "/out/voice.mp3") (py "gpt-4o-mini-tts") (py "nova") 1%float
           Demo.w0).
  reflexivity.
Defined.

Lemma generate_voiceover_audio_without_key_witness :
  generate_voiceover_audio env_no_key (py "Hello.") (py "/out/voice.mp3")
    (py "nova") 1%float Demo.w0 =
  (Raise (RuntimeError missing_key_message), Demo.w0).
Proof.
  apply (@generate_voiceover_audio_without_key env_no_key (py "Hello.")
           (py "/out/voice.mp3") (py "nova") 1%float Demo.w0).
  exact I.
Defined.


Lemma merge_without_processing_witness :
  let run := merge_video_with_audio env_silent_video Demo.video_path
               Demo.audio_path Demo.merged_path 0.3%float 1%float Demo.w0 in
  let fc := mkVideo 2 Demo.vcaps_v2 0 (Some 60%float)
              (Some (opened_narration narration42 1)) in
  fst run = Ok Demo.merged_path /\
  Demo.merged_path = Demo.merged_path /\
  w_log (snd run) =
    w_log Demo.w0 ++ output_dir_events env_silent_video Demo.merged_path ++
    [EvOpenVideo Demo.video_path 0; EvOpenAudio Demo.audio_path 1;
     EvWriteVideofile fc Demo.merged_path libx264 aac
       (tmp_audiofile env_silent_video);
     EvClose 1 (Some 1); EvClose 0 (Some 0); EvClose 2 (Some 0)].
Proof.
  intros run fc. split; [reflexivity|].
  apply (@merge_without_processing env_silent_video Demo.video_path
           Demo.audio_path Demo.merged_path 0.3%float Demo.w0 silent_video60
           narration42 60%float 42.5%float Demo.merged_path (snd run));
    reflexivity.
Defined.

Lemma merge_unknown_duration_witness :
  let run := merge_video_with_audio env_no_duration Demo.video_path
               Demo.audio_path Demo.merged_path 1%float 1%float Demo.w0 in
  exists e evs,
    fst run = Raise e /\
    w_log (snd run) = w_log Demo.w0 ++ evs /\
    forallb (fun ev => negb (is_write ev)) evs = true.
Proof.
  apply (@merge_unknown_duration env_no_duration Demo.video_path
           Demo.audio_path Demo.merged_path 1%float 1%float Demo.w0
           video_no_duration (mkAudioFile (Some 75.5%float) Demo.caps_v2)).
  - reflexivity.
  - reflexivity.
  - left. reflexivity.
Defined.


Lemma read_pdf_skips_empty_pages_witness :
  read_pdf demo_docs (py "/in/report.pdf") =
  read_pdf demo_docs_text_pages (py "/in/report.pdf").
Proof.
  apply (@read_pdf_skips_empty_pages demo_docs demo_docs_text_pages
           (py "/in/report.pdf") [Some (py "Title")] None [Some (py " body")]);
    reflexivity.
Defined.

Lemma read_docx_round_trip_witness :
  exists text,
    read_docx demo_docs (py "/in/letter.docx") = Ok text /\
    split_on 10%N text = [py "Dear reader,"; py "thank you."].
Proof.
  apply (@read_docx_round_trip demo_docs (py "/in/letter.docx")
           [py "Dear reader,"; py "thank you."]).
  - reflexivity.
  - discriminate.
  - repeat constructor; intros H; vm_compute in H;
      repeat (destruct H as [H|H]; [discriminate H|]); exact H.
Defined.

Lemma generate_voiceover_text_trace_witness :
  let run := generate_voiceover_text Demo.env Demo.video_path
               Demo.instructions Demo.w0 in
  fst run = Ok (py "<p>A calm lake at dawn.</p>") /\
  exists D d h2 b64s,
    let h1 := w_next Demo.w0 in
    let ts := sample_timestamps D 10 in
    let req :=
      vision_request gpt_4o_mini
        (instructions_modified Demo.instructions (200 / 60 * D)%float) 1000
        (map data_uri b64s) in
    h1 < h2 /\ length ts = 10 /\ length b64s = 10 /\
    w_log (snd run) =
      w_log Demo.w0 ++
        [EvOpenVideo Demo.video_path h1; EvClose h1 (Some h1); EvMkdtemp d;
         EvOpenVideo Demo.video_path h2]
        ++ frame_events h2 d 0 ts
        ++ [EvClose h2 (Some h2); EvChatCompletion req; EvRmtree d].
Proof.
  intros run. split; [reflexivity|].
  apply (@generate_voiceover_text_trace Demo.env Demo.video_path
           Demo.instructions Demo.w0 (py "<p>A calm lake at dawn.</p>")
           (snd run)).
  reflexivity.
Defined.


Lemma merge_success_trace_witness :
  let run := merge_video_with_audio Demo.env Demo.video_path Demo.audio_path
               Demo.merged_path 0.2%float 0.5%float Demo.w0 in
  fst run = Ok Demo.merged_path /\
  exists fc hA oN,
    let hV := w_next Demo.w0 in
    Demo.merged_path = Demo.merged_path /\ hV < hA /\ v_reader fc = hV /\
    w_log (snd run) =
      w_log Demo.w0 ++ output_dir_events Demo.env Demo.merged_path ++
      [EvOpenVideo Demo.video_path hV; EvOpenAudio Demo.audio_path hA;
       EvWriteVideofile fc Demo.merged_path libx264 aac (tmp_audiofile Demo.env);
       EvClose oN (Some hA); EvClose hV (Some hV); EvClose (v_oid fc) (Some hV)].
Proof.
  intros run. split; [reflexivity|].
  apply (@merge_success_trace Demo.env Demo.video_path Demo.audio_path
           Demo.merged_path 0.2%float 0.5%float Demo.w0 Demo.merged_path
           (snd run)).
  reflexivity.
Defined.
